(** * ClickUp to Google Sheets synchronisation: a shallow embedding

    The two scripts of the repository (the team-scoped
    [scripts/sync_clickup_pageurl_to_gsheet.js] and its list-scoped twin)
    share every function but the paginator.  The functions are embedded here
    over a small model of the JavaScript values they handle, and the
    properties of the reconciliation pipeline are proved about them. *)

From Stdlib Require Import ZArith Ascii String DecimalString.
From stdpp Require Import base tactics option list gmap strings fin_maps.

Local Open Scope string_scope.
Local Open Scope Z_scope.

(** ** JavaScript values

    Tasks, custom fields and sheet cells are JSON documents decoded by the
    HTTP clients.  [VUndef] is the result of reading a property that is not
    there.  Numbers are the integer-valued ones (identifiers, epoch
    milliseconds), and their digits are the program's up to 2^53 in
    magnitude.  Strings are taken character by character, and [trim] and
    [toLowerCase] know the white space and the letters of ASCII: on text in
    ASCII they are the program's. *)

Module JS.

#[warnings="-register-all"]
Inductive jsval : Type :=
| VUndef
| VNull
| VBool (b : bool)
| VNum (z : Z)
| VStr (s : string)
| VArr (elems : list jsval)
| VObj (props : list (string * jsval)).

(** What a [throw] carries: the two errors the functions of the program
    raise on their input, and the error of a collaborator, a request that is
    rejected or credentials that do not parse. *)
Inductive exn : Type := TypeError | RangeError | CollaboratorError.

(** The completion of an evaluation: a value or a thrown exception. *)
Inductive completion (A : Type) : Type :=
| Return (a : A)
| Throw (e : exn).
Arguments Return {A} a.
Arguments Throw {A} e.

#[global] Instance completion_ret : MRet completion := @Return.
#[global] Instance completion_bind : MBind completion :=
  fun A B f c => match c with Return a => f a | Throw e => Throw e end.
#[global] Instance completion_fmap : FMap completion :=
  fun A B f c => match c with Return a => Return (f a) | Throw e => Throw e end.

(** [typeof v] *)
Inductive jstype : Type := TUndefined | TObject | TBoolean | TNumber | TString.

Definition typeof (v : jsval) : jstype :=
  match v with
  | VUndef => TUndefined
  | VNull | VArr _ | VObj _ => TObject
  | VBool _ => TBoolean
  | VNum _ => TNumber
  | VStr _ => TString
  end.

(** ToBoolean *)
Definition truthy (v : jsval) : bool :=
  match v with
  | VUndef | VNull => false
  | VBool b => b
  | VNum z => negb (z =? 0)
  | VStr s => negb (String.eqb s "")
  | VArr _ | VObj _ => true
  end.

(** [v == null] *)
Definition nullish (v : jsval) : bool :=
  match v with VUndef | VNull => true | _ => false end.

(** [a || b] and [a ?? b] on values already evaluated (the right operands in
    the program are literals). *)
Definition or_else (a b : jsval) : jsval := if truthy a then a else b.
Definition coalesce (a b : jsval) : jsval := if nullish a then b else a.

Fixpoint assoc (k : string) (ps : list (string * jsval)) : jsval :=
  match ps with
  | [] => VUndef
  | (k', v) :: ps' => if String.eqb k k' then v else assoc k ps'
  end.

(** Whether an object has an own property [k], whatever it holds. *)
Definition has_own (k : string) (ps : list (string * jsval)) : bool :=
  existsb (fun p => String.eqb k (fst p)) ps.

(** Reading property [k] of a value that is neither [null] nor [undefined].
    None of the names the program reads is a property of a string, number,
    boolean or array. *)
Definition get (v : jsval) (k : string) : jsval :=
  match v with
  | VObj ps => assoc k ps
  | _ => VUndef
  end.

(** [v.k]: a TypeError on [null] and [undefined]. *)
Definition member (v : jsval) (k : string) : completion jsval :=
  if nullish v then Throw TypeError else Return (get v k).

(** [v?.k] *)
Definition opt_member (v : jsval) (k : string) : jsval :=
  if nullish v then VUndef else get v k.

(** Number::toString for an integer: its decimal digits, which is what the
    program prints for the integers up to 2^53 in magnitude. *)
Definition Number_toString (z : Z) : string :=
  NilZero.string_of_int (Z.to_int z).

Definition join_with (sep : string) (parts : list string) : string :=
  match parts with
  | [] => ""
  | p :: ps => fold_left (fun acc q => acc +:+ sep +:+ q) ps p
  end.

(** The string a conversion to string gives where it returns (whether it
    does is [ToPrimitive_throws] below).  An array prints its elements
    separated by commas, [null] and [undefined] elements as nothing; a plain
    object prints as [[object Object]]. *)
Fixpoint ToString (v : jsval) : string :=
  match v with
  | VUndef => "undefined"
  | VNull => "null"
  | VBool b => if b then "true" else "false"
  | VNum z => Number_toString z
  | VStr s => s
  | VArr l =>
      join_with ","
        (List.map (fun e => if nullish e then "" else ToString e) l)
  | VObj _ => "[object Object]"
  end.

(** Whether the conversion of a value to a primitive throws.  The values
    are decoded JSON, so no property holds a function.  An object with an
    own property [toString] has then no method left to convert it: its
    [toString] cannot be called, and [valueOf], own or inherited, gives no
    primitive.  An array prints its elements, and fails where one of them
    does.  Every other value converts. *)
Fixpoint ToPrimitive_throws (v : jsval) : bool :=
  match v with
  | VArr l => existsb ToPrimitive_throws l
  | VObj ps => has_own "toString" ps
  | _ => false
  end.

(** [String(v)] *)
Definition String_ (v : jsval) : completion string :=
  if ToPrimitive_throws v then Throw TypeError else Return (ToString v).

(** [l.join(sep)] *)
Definition join (sep : string) (l : list jsval) : completion string :=
  if existsb ToPrimitive_throws l then Throw TypeError
  else
    Return
      (join_with sep
         (List.map (fun e => if nullish e then "" else ToString e) l)).

(** *** Strings *)

Definition lower_ascii (c : ascii) : ascii :=
  let n := nat_of_ascii c in
  if ((65 <=? n) && (n <=? 90))%nat then ascii_of_nat (n + 32) else c.

Fixpoint toLowerCase (s : string) : string :=
  match s with
  | EmptyString => EmptyString
  | String c s' => String (lower_ascii c) (toLowerCase s')
  end.

(** White space: TAB, LF, VT, FF, CR and the space. *)
Definition is_space (c : ascii) : bool :=
  let n := nat_of_ascii c in
  ((9 <=? n) && (n <=? 13) || (n =? 32))%nat.

Fixpoint trimStart (s : string) : string :=
  match s with
  | EmptyString => EmptyString
  | String c s' => if is_space c then trimStart s' else s
  end.

Fixpoint trimEnd (s : string) : string :=
  match s with
  | EmptyString => EmptyString
  | String c s' =>
      match trimEnd s' with
      | EmptyString => if is_space c then EmptyString else String c EmptyString
      | t => String c t
      end
  end.

Definition trim (s : string) : string := trimEnd (trimStart s).

(** [list.includes(s)] on a list of strings *)
Definition includes (l : list string) (s : string) : bool :=
  existsb (String.eqb s) l.

(** *** Numbers and dates

    The result of [Number(v)]: besides the integers a conversion can give
    NaN, an infinity, or a number with a fractional part, of which only the
    integer part ([Frac t], rounded toward zero) matters to a date. *)
Inductive number : Type :=
| NaN
| Infinity (negative : bool)
| Int (z : Z)
| Frac (t : Z).

(** [!n] *)
Definition number_falsy (n : number) : bool :=
  match n with
  | NaN => true
  | Int z => z =? 0
  | Infinity _ | Frac _ => false
  end.

(** TimeClip: the time value of [new Date(n)], if it is a valid date. *)
Definition max_time : Z := 8640000000000000.

Definition TimeClip (n : number) : option Z :=
  match n with
  | NaN | Infinity _ => None
  | Int z => if Z.abs z <=? max_time then Some z else None
  | Frac t => if Z.abs t <? max_time then Some t else None
  end.

Definition digit (d : Z) : ascii := ascii_of_nat (48 + Z.to_nat (d mod 10)).

(** [n] written with exactly [w] decimal digits *)
Fixpoint padded (w : nat) (n : Z) : string :=
  match w with
  | O => EmptyString
  | S w' => padded w' (n / 10) +:+ String (digit n) EmptyString
  end.

(** Days since the epoch to a civil date of the proleptic Gregorian
    calendar. *)
Definition civil_from_days (days : Z) : Z * Z * Z :=
  let z := days + 719468 in
  let era := z / 146097 in
  let doe := z - era * 146097 in
  let yoe := (doe - doe / 1460 + doe / 36524 - doe / 146096) / 365 in
  let doy := doe - (365 * yoe + yoe / 4 - yoe / 100) in
  let mp := (5 * doy + 2) / 153 in
  let d := doy - (153 * mp + 2) / 5 + 1 in
  let m := if mp <? 10 then mp + 3 else mp - 9 in
  let y := yoe + era * 400 + (if m <=? 2 then 1 else 0) in
  (y, m, d).

Definition iso_year (y : Z) : string :=
  if (0 <=? y) && (y <=? 9999) then padded 4 y
  else (if y <? 0 then "-" else "+") +:+ padded 6 (Z.abs y).

(** [Date.prototype.toISOString] of a valid time value *)
Definition iso_of_time (t : Z) : string :=
  let day := 86400000 in
  let '(y, m, d) := civil_from_days (t / day) in
  let ms := t mod day in
  iso_year y +:+ "-" +:+ padded 2 m +:+ "-" +:+ padded 2 d +:+ "T"
  +:+ padded 2 (ms / 3600000) +:+ ":" +:+ padded 2 (ms / 60000 mod 60)
  +:+ ":" +:+ padded 2 (ms / 1000 mod 60) +:+ "." +:+ padded 3 (ms mod 1000)
  +:+ "Z".

(** [new Date(n).toISOString()]: a RangeError on an invalid date. *)
Definition Date_toISOString (n : number) : completion string :=
  match TimeClip n with
  | Some t => Return (iso_of_time t)
  | None => Throw RangeError
  end.

End JS.
Export JS.

(** ** The host's conversions

    Two built-ins are used on arbitrary input and are left to the host:
    the string case of [Number(_)], and [JSON.stringify], which yields
    [None] where it throws. *)
Class Host : Type := {
  StringToNumber : string -> number;
  JSON_stringify : jsval -> option string
}.

(** The number a conversion to number gives where it returns: objects and
    arrays go through their string form. *)
Definition ToNumber `{Host} (v : jsval) : number :=
  match v with
  | VUndef => NaN
  | VNull => Int 0
  | VBool b => Int (if b then 1 else 0)
  | VNum z => Int z
  | VStr s => StringToNumber s
  | VArr _ | VObj _ => StringToNumber (ToString v)
  end.

(** [Number(v)] *)
Definition Number_ `{Host} (v : jsval) : completion number :=
  if ToPrimitive_throws v then Throw TypeError else Return (ToNumber v).

(** ** Task Classifier *)

Definition DONE_LABELS : list string :=
  ["complete"; "completed"; "done"; "published"; "finalized"; "closed"].

(** [task?.archived === true] *)
Definition strictly_true (v : jsval) : bool :=
  match v with VBool true => true | _ => false end.

(** [String(task?.status?.status || "")] *)
Definition status_label (task : jsval) : completion string :=
  String_ (or_else (opt_member (opt_member task "status") "status") (VStr "")).

(** [isDone(task)] *)
Definition isDone (task : jsval) : completion bool :=
  label ← status_label task;
  let s := toLowerCase label in
  Return (includes DONE_LABELS s || strictly_true (opt_member task "archived")).

(** ** Field Extractor *)

Section Extractor.
Context `{Host}.

(** [String(f?.name || "")] *)
Definition field_name (f : jsval) : completion string :=
  String_ (or_else (opt_member f "name") (VStr "")).

(** The predicate handed to [fields.find]. *)
Definition field_matches (fieldName : string) (f : jsval) : completion bool :=
  name ← field_name f;
  Return (String.eqb (toLowerCase (trim name)) (toLowerCase (trim fieldName))).

(** [Array.prototype.find]: the first element accepted, else [undefined];
    the elements are tried in order, and none after the one accepted. *)
Fixpoint find (p : jsval -> completion bool) (l : list jsval)
  : completion jsval :=
  match l with
  | [] => Return VUndef
  | x :: l' =>
      p x ≫= fun accepted : bool =>
      if accepted then Return x else find p l'
  end.

(** [Array.isArray(task?.custom_fields) ? task.custom_fields : []] *)
Definition custom_fields_of (task : jsval) : list jsval :=
  match opt_member task "custom_fields" with
  | VArr l => l
  | _ => []
  end.

(** The coercion of the matched value, from [const v = match.value] on. *)
Definition coerce_value (v : jsval) : completion string :=
  if nullish v then Return ""
  else
    match typeof v with
    | TString => Return (ToString v)
    | TNumber => Return (ToString v)
    | TObject =>
        u ← member v "url";
        match u with
        | VStr s => Return s
        | _ =>
            w ← member v "value";
            match w with
            | VStr s => Return s
            | _ =>
                match JSON_stringify v with
                | Some s => Return s
                | None => Return ""
                end
            end
        end
    | _ => Return ""
    end.

(** [getCustomFieldValue(task, fieldName)] *)
Definition getCustomFieldValue (task : jsval) (fieldName : string)
  : completion string :=
  let fields := custom_fields_of task in
  found ← find (field_matches fieldName) fields;
  if negb (truthy found) then Return ""
  else v ← member found "value"; coerce_value v.

End Extractor.

(** ** Task Source Paginator

    A page source answers the request for page [page] with the tasks of
    [res.data?.tasks || []].  Each loop carries the page counter, the tasks
    gathered and the pages requested so far; [fuel] bounds the number of
    iterations, and running out of it is [None]. *)

Definition page_source : Type := nat -> list jsval.

(** The loop of [fetchAllTasksFromTeam]. *)
Fixpoint team_loop (src : page_source) (fuel page : nat)
    (all : list jsval) (asked : list nat)
  : option (list jsval * list nat) :=
  match fuel with
  | O => None
  | S fuel' =>
      let tasks := src page in
      let all := (all ++ tasks)%list in
      let asked := (asked ++ [page])%list in
      if (length tasks =? 0)%nat then Some (all, asked)
      else team_loop src fuel' (S page) all asked
  end.

Definition fetchAllTasksFromTeam (src : page_source) (fuel : nat)
  : option (list jsval * list nat) :=
  team_loop src fuel 0%nat [] [].

(** The loop of [fetchAllTasksFromList], with its safety cap. *)
Fixpoint list_loop (src : page_source) (fuel page : nat)
    (all : list jsval) (asked : list nat)
  : option (list jsval * list nat) :=
  match fuel with
  | O => None
  | S fuel' =>
      let tasks := src page in
      let all := (all ++ tasks)%list in
      let asked := (asked ++ [page])%list in
      if (length tasks =? 0)%nat then Some (all, asked)
      else
        let page := S page in
        if (200 <? page)%nat then Some (all, asked)
        else list_loop src fuel' page all asked
  end.

Definition fetchAllTasksFromList (src : page_source) (fuel : nat)
  : option (list jsval * list nat) :=
  list_loop src fuel 0%nat [] [].

(** ** Record Normalizer *)

(** A normalized record.  [task_id], [assignees], [page_url] and
    [date_closed] are built by string operations; the other three fields
    carry whatever [x || ""] evaluates to. *)
Record record : Type := {
  task_id : string;
  task_name : jsval;
  status : jsval;
  assignees : string;
  page_url : string;
  date_closed : string;
  url : jsval
}.

Section Normalizer.
Context `{Host}.

(** [toIso(ms)] *)
Definition toIso (ms : jsval) : completion string :=
  n ← Number_ ms;
  if number_falsy n then Return "" else Date_toISOString n.

(** [(a) => a.username || a.email || a.id] *)
Definition assignee_label (a : jsval) : completion jsval :=
  u ← member a "username";
  if truthy u then Return u
  else
    e ← member a "email";
    if truthy e then Return e else member a "id".

(** [x.map(f)]: only an array has the method. *)
Definition array_map (f : jsval -> completion jsval) (x : jsval)
  : completion (list jsval) :=
  match x with
  | VArr l => mapM f l
  | _ => Throw TypeError
  end.

(** [l.filter(p)]: the predicate is called on every element, in order. *)
Fixpoint array_filter (p : jsval -> completion bool) (l : list jsval)
  : completion (list jsval) :=
  match l with
  | [] => Return []
  | x :: l' =>
      p x ≫= fun kept : bool =>
      array_filter p l' ≫= fun rest =>
      Return (if kept then x :: rest else rest)
  end.

(** The object literal of [normalize], its properties in source order. *)
Definition to_record (PAGE_URL_FIELD_NAME : string) (t : jsval)
  : completion record :=
  id ← member t "id";
  key ← String_ (or_else id (VStr ""));
  name ← member t "name";
  st ← member t "status";
  who ← member t "assignees";
  labels ← array_map assignee_label (or_else who (VArr []));
  joined ← join ", " labels;
  page ← getCustomFieldValue t PAGE_URL_FIELD_NAME;
  closed ← member t "date_closed";
  done ← (if truthy closed then Return closed else member t "date_done");
  iso ← toIso (or_else done (VStr ""));
  link ← member t "url";
  Return {| task_id := key;
            task_name := or_else name (VStr "");
            status := or_else (opt_member st "status") (VStr "");
            assignees := joined;
            page_url := page;
            date_closed := iso;
            url := or_else link (VStr "") |}.

(** [normalize(tasks)]: the whole list is filtered before the first task is
    mapped. *)
Definition normalize (PAGE_URL_FIELD_NAME : string) (tasks : list jsval)
  : completion (list record) :=
  finished ← array_filter isDone tasks;
  rs ← mapM (to_record PAGE_URL_FIELD_NAME) finished;
  Return (List.filter (fun r => truthy (VStr (task_id r))) rs).

End Normalizer.

(** ** The tabular store

    The spreadsheet tab seen through the three calls the program makes on
    it: [values.get], [values.update] (one range of [values.batchUpdate])
    and [values.append].  The service is not part of the repository; what
    is written down here is the behaviour the program relies on.  A sheet
    is its list of rows, row 1 first; a row is its list of cells from
    column A on, a missing cell being an empty one.  Values are stored as
    given ([valueInputOption: "RAW"]) and read back as stored.  The program
    converts to strings only cells of row 1 and of column A, which hold the
    strings it wrote there or the scalars of a sheet it did not write; on
    these [String] returns, and the two functions that read the store take
    [ToString] of the cell as it is. *)

Module Sheets.

Abbreviation row := (list jsval) (only parsing).
Abbreviation sheet := (list (list jsval)) (only parsing).

Definition cell_empty (c : jsval) : bool :=
  match c with VStr s => String.eqb s "" | _ => false end.

(** [l] without the longest suffix whose elements all satisfy [p] *)
Fixpoint drop_trailing {A : Type} (p : A -> bool) (l : list A) : list A :=
  match l with
  | [] => []
  | x :: l' =>
      match drop_trailing p l' with
      | [] => if p x then [] else [x]
      | t => x :: t
      end
  end.

(** Columns A to G of a row, as a read returns them: trailing empty cells
    are left out. *)
Definition trim_row (r : row) : row := drop_trailing cell_empty (take 7 r).

Definition row_blank (r : row) : bool := forallb cell_empty (take 7 r).

Definition is_nil (r : row) : bool :=
  match r with [] => true | _ => false end.

(** [values.get] on columns A to G from row [top] down to row [bottom], or
    to the end of the sheet: trailing empty rows are left out, and a range
    without data has no [values] at all. *)
Definition values_get (top : nat) (bottom : option nat) (s : sheet)
  : option (list (list jsval)) :=
  let below := drop (top - 1) s in
  let ranged :=
    match bottom with
    | Some b => take (b + 1 - top) below
    | None => below
    end in
  match drop_trailing is_nil (List.map trim_row ranged) with
  | [] => None
  | rows => Some rows
  end.

(** Writing [vals] over the first cells of a row *)
Definition overwrite (vals old : row) : row :=
  (vals ++ drop (length vals) old)%list.

(** [values.update] of the cells of row [n] (counted from 1) from column A
    on; a row below the last one comes into being. *)
Definition values_update (n : nat) (vals : row) (s : sheet) : sheet :=
  let i := (n - 1)%nat in
  if (i <? length s)%nat then alter (overwrite vals) i s
  else (s ++ replicate (i - length s) [] ++ [vals])%list.

(** The row after the last one that holds data in columns A to G *)
Definition table_end (s : sheet) : nat := length (drop_trailing row_blank s).

(** [values.append] with [insertDataOption: "INSERT_ROWS"]: the new rows
    are inserted after the last row of the table. *)
Definition values_append (rows : list (list jsval)) (s : sheet) : sheet :=
  let e := table_end s in
  (take e s ++ rows ++ drop e s)%list.

End Sheets.
Export Sheets.

(** ** Header Guard *)

Definition HEADERS : list string :=
  ["task_id"; "task_name"; "status"; "assignees"; "page_url"; "date_closed";
   "url"].

(** [existing.every((v, i) => String(v).trim() === HEADERS[i])], from index
    [i] on *)
Fixpoint every_header (i : nat) (existing : list jsval) : bool :=
  match existing with
  | [] => true
  | v :: rest =>
      match HEADERS !! i with
      | Some h => String.eqb (trim (ToString v)) h
      | None => false
      end && every_header (S i) rest
  end.

(** [ensureHeaderRow(sheets)]: the sheet it leaves, and whether it wrote. *)
Definition ensureHeaderRow (s : list (list jsval))
  : list (list jsval) * bool :=
  let existing :=
    match values_get 1 (Some 1%nat) s with
    | Some (r :: _) => r
    | _ => []
    end in
  let ok :=
    (length existing =? length HEADERS)%nat && every_header 0 existing in
  if negb ok then (values_update 1 (List.map VStr HEADERS) s, true)
  else (s, false).

(** ** Sheet Reconciler *)

(** [rowFromRecord(r)]: [HEADERS.map((h) => r[h] ?? "")] *)
Definition rowFromRecord (r : record) : list jsval :=
  List.map (fun v => coalesce v (VStr ""))
    [VStr (task_id r); task_name r; status r; VStr (assignees r);
     VStr (page_url r); VStr (date_closed r); url r].

(** The first loop of [upsertByTaskId]: [idToRow.set(String(taskId), i + 2)]
    for every row whose first cell is truthy, from index [i] on. *)
Fixpoint idToRow_from (rows : list (list jsval)) (i : nat)
    (idToRow : gmap string nat) : gmap string nat :=
  match rows with
  | [] => idToRow
  | r :: rest =>
      let taskId := match r with [] => VUndef | c :: _ => c end in
      idToRow_from rest (S i)
        (if truthy taskId then <[ToString taskId := (i + 2)%nat]> idToRow
         else idToRow)
  end.

(** One turn of the second loop: the record goes to [updates] with the row
    number found for its [task_id], or to [appends]. *)
Definition schedule_step (idToRow : gmap string nat)
    (acc : list (nat * list jsval) * list (list jsval)) (r : record)
  : list (nat * list jsval) * list (list jsval) :=
  let '(updates, appends) := acc in
  let values := rowFromRecord r in
  match idToRow !! task_id r with
  | Some (S _ as rowNum) => ((updates ++ [(rowNum, values)])%list, appends)
  | _ => (updates, (appends ++ [values])%list)
  end.

Definition schedule (idToRow : gmap string nat) (records : list record)
  : list (nat * list jsval) * list (list jsval) :=
  fold_left (schedule_step idToRow) records ([], []).

(** [values.batchUpdate]: the range writes, in the order of [data]. *)
Definition batchUpdate (updates : list (nat * list jsval))
    (s : list (list jsval)) : list (list jsval) :=
  fold_left (fun s u => values_update (fst u) (snd u) s) updates s.

(** The mapping [upsertByTaskId] builds from what it reads of the sheet. *)
Definition idToRow_of (s : list (list jsval)) : gmap string nat :=
  idToRow_from (default [] (values_get 2 None s)) 0 ∅.

(** [upsertByTaskId(sheets, records)]: the sheet it leaves, and the two
    counts it logs. *)
Definition upsertByTaskId (s : list (list jsval)) (records : list record)
  : list (list jsval) * (nat * nat) :=
  let idToRow := idToRow_of s in
  let '(updates, appends) := schedule idToRow records in
  let s := if (length updates =? 0)%nat then s else batchUpdate updates s in
  let s := if (length appends =? 0)%nat then s else values_append appends s in
  (s, (length updates, length appends)).

(** ** A host

    An instance of the host's conversions, for running the program on
    examples.  Its [StringToNumber] reads the decimal literals without an
    exponent (an optional sign, digits, an optional fraction), [Infinity]
    and the empty string, and takes every other string for NaN; its
    [JSON.stringify] prints the value as compact JSON and never throws. *)

Module IntegerHost.

Definition is_digit (c : ascii) : bool :=
  let n := nat_of_ascii c in ((48 <=? n) && (n <=? 57))%nat.

Fixpoint all_digits (s : string) : bool :=
  match s with
  | EmptyString => true
  | String c s' => is_digit c && all_digits s'
  end.

Fixpoint digits_value (acc : Z) (s : string) : Z :=
  match s with
  | EmptyString => acc
  | String c s' => digits_value (10 * acc + (Z.of_nat (nat_of_ascii c) - 48)) s'
  end.

(** The text before the first dot, and the text after it if there is one *)
Fixpoint split_dot (s : string) : string * option string :=
  match s with
  | EmptyString => (EmptyString, None)
  | String c s' =>
      if Ascii.eqb c "." then (EmptyString, Some s')
      else let '(a, b) := split_dot s' in (String c a, b)
  end.

Definition unsigned_literal (s : string) : number :=
  if String.eqb s "Infinity" then Infinity false else
  let '(whole, fraction) := split_dot s in
  let frac := default EmptyString fraction in
  if all_digits whole && all_digits frac
     && negb (String.eqb whole "" && String.eqb frac "")
  then
    if digits_value 0 frac =? 0 then Int (digits_value 0 whole)
    else Frac (digits_value 0 whole)
  else NaN.

Definition negate (n : number) : number :=
  match n with
  | Int z => Int (- z)
  | Frac t => Frac (- t)
  | Infinity b => Infinity (negb b)
  | NaN => NaN
  end.

Definition string_to_number (s : string) : number :=
  match trim s with
  | EmptyString => Int 0
  | String c rest as t =>
      if Ascii.eqb c "-" then negate (unsigned_literal rest)
      else if Ascii.eqb c "+" then unsigned_literal rest
      else unsigned_literal t
  end.

Definition hex_digit (n : nat) : ascii :=
  if (n <? 10)%nat then ascii_of_nat (48 + n) else ascii_of_nat (87 + n).

Definition dquote : string := String (ascii_of_nat 34) EmptyString.

Definition escape_char (c : ascii) : string :=
  let n := nat_of_ascii c in
  if (n =? 34)%nat then "\" +:+ dquote
  else if (n =? 92)%nat then "\\"
  else if (n =? 8)%nat then "\b"
  else if (n =? 9)%nat then "\t"
  else if (n =? 10)%nat then "\n"
  else if (n =? 12)%nat then "\f"
  else if (n =? 13)%nat then "\r"
  else if (n <? 32)%nat then
    "\u00" +:+ String (hex_digit (n / 16)) (String (hex_digit (n mod 16)) "")
  else String c "".

Fixpoint quote_body (s : string) : string :=
  match s with
  | EmptyString => EmptyString
  | String c s' => escape_char c +:+ quote_body s'
  end.

Definition quote (s : string) : string := dquote +:+ quote_body s +:+ dquote.

(** The JSON text of a value; an [undefined] element prints as [null], an
    [undefined] property is left out. *)
Fixpoint json_text (v : jsval) : string :=
  match v with
  | VUndef | VNull => "null"
  | VBool b => if b then "true" else "false"
  | VNum z => Number_toString z
  | VStr s => quote s
  | VArr l => "[" +:+ join_with "," (List.map json_text l) +:+ "]"
  | VObj ps =>
      "{" +:+
      join_with ","
        ((fix members (ps : list (string * jsval)) : list string :=
            match ps with
            | [] => []
            | (k, VUndef) :: ps' => members ps'
            | (k, w) :: ps' => (quote k +:+ ":" +:+ json_text w) :: members ps'
            end) ps)
      +:+ "}"
  end.

Definition host : Host :=
  {| StringToNumber := string_to_number;
     JSON_stringify := fun v => Some (json_text v) |}.

End IntegerHost.

(** ** Vocabulary of the statements *)

(** The [task_id] the reconciler reads off a row: the string form of its
    first cell, when that cell is truthy. *)
Definition row_key (r : list jsval) : option string :=
  match r with
  | c :: _ => if truthy c then Some (ToString c) else None
  | [] => None
  end.

(** Row 1 holds something in columns A to G. *)
Definition header_present (s : list (list jsval)) : bool :=
  match s with
  | r :: _ => negb (row_blank r)
  | [] => false
  end.

(** The index of the last row of [rows] whose key is [k] *)
Fixpoint last_key (k : string) (rows : list (list jsval)) : option nat :=
  match rows with
  | [] => None
  | r :: rest =>
      match last_key k rest with
      | Some j => Some (S j)
      | None => if bool_decide (row_key r = Some k) then Some 0%nat else None
      end
  end.

(** The values of the last write of [updates] that targets row [n] *)
Fixpoint last_write (n : nat) (updates : list (nat * list jsval))
  : option (list jsval) :=
  match updates with
  | [] => None
  | u :: rest =>
      match last_write n rest with
      | Some v => Some v
      | None => if bool_decide (fst u = n) then Some (snd u) else None
      end
  end.

(** The last record of a batch that satisfies [p] *)
Fixpoint last_rec (p : record -> bool) (records : list record)
  : option record :=
  match records with
  | [] => None
  | r :: rest =>
      match last_rec p rest with
      | Some r' => Some r'
      | None => if p r then Some r else None
      end
  end.

(** The row number a record is written to, if it is scheduled as an
    overwrite. *)
Definition target (idToRow : gmap string nat) (r : record) : option nat :=
  match idToRow !! task_id r with
  | Some (S n) => Some (S n)
  | _ => None
  end.

(** The predicate returns [true] on the element. *)
Definition accepts (p : jsval -> completion bool) (x : jsval) : bool :=
  match p x with Return true => true | _ => false end.

(** The six terminal labels, as the specification lists them. *)
Definition terminal (label : string) : Prop :=
  In label ["complete"; "completed"; "done"; "published"; "finalized";
            "closed"].


(** What the comparison of names reads of a custom field: [f?.name || ""] *)
Definition name_value (f : jsval) : jsval :=
  or_else (opt_member f "name") (VStr "").





(** The integers a number holds exactly *)
Definition safe_integer (z : Z) : Prop := Z.abs z <= 2 ^ 53.

Section Coercion.
Context `{Host}.

(** The ordered chain of the coercion, one clause per shape of the value;
    the decimal digits of a number are those of the Standard Library. *)
Definition coerced (v : jsval) (s : string) : Prop :=
  (nullish v = true -> s = "")
  /\ (forall x, v = VStr x -> s = x)
  /\ (forall z, v = VNum z -> safe_integer z ->
      s = NilZero.string_of_int (Z.to_int z))
  /\ (forall b, v = VBool b -> s = "")
  /\ (typeof v = TObject -> nullish v = false ->
      (forall u, get v "url" = VStr u -> s = u)
      /\ (typeof (get v "url") <> TString ->
          (forall w, get v "value" = VStr w -> s = w)
          /\ (typeof (get v "value") <> TString ->
              s = default "" (JSON_stringify v)))).

End Coercion.

(** Records with the same [task_id] agree on every cell. *)
Definition consistent (records : list record) : Prop :=
  forall r r', r ∈ records -> r' ∈ records ->
    task_id r = task_id r' -> rowFromRecord r = rowFromRecord r'.

(** The scenario of the specification: one finished task and the record it
    normalizes to. *)
Definition scenario_task : jsval :=
  VObj [("id", VStr "42");
        ("status", VObj [("status", VStr "Done")]);
        ("archived", VBool false);
        ("custom_fields",
          VArr [VObj [("name", VStr "Page URL");
                      ("value", VStr "https://x/42")]]);
        ("date_closed", VNum 1700000000000);
        ("assignees", VArr [VObj [("username", VStr "amy")]]);
        ("name", VStr "Write docs");
        ("url", VStr "https://app/42")].

Definition scenario_record : record :=
  {| task_id := "42";
     task_name := VStr "Write docs";
     status := VStr "Done";
     assignees := "amy";
     page_url := "https://x/42";
     date_closed := "2023-11-14T22:13:20.000Z";
     url := VStr "https://app/42" |}.

(** A task that is done and carries nothing else: what an endless page
    source keeps returning. *)
Definition some_task : jsval :=
  VObj [("id", VStr "1"); ("status", VObj [("status", VStr "done")])].

(** The overwrites and the appends of a batch, as the second loop of
    [upsertByTaskId] leaves them. *)
Definition updates_of (idToRow : gmap string nat) (records : list record)
  : list (nat * list jsval) :=
  omap (fun r => (fun n => (n, rowFromRecord r)) <$> target idToRow r) records.

Definition appended (idToRow : gmap string nat) (records : list record)
  : list record :=
  filter (fun r => target idToRow r = None) records.

Definition appends_of (idToRow : gmap string nat) (records : list record)
  : list (list jsval) :=
  rowFromRecord <$> appended idToRow records.

(** Sample data for the reconciler: a record with a given [task_id] and
    name, and a sheet that holds only the header row. *)
Definition sample_record (id name : string) : record :=
  {| task_id := id;
     task_name := VStr name;
     status := VStr "done";
     assignees := "amy";
     page_url := "https://x/" +:+ id;
     date_closed := "2023-11-14T22:13:20.000Z";
     url := VStr ("https://app/" +:+ id) |}.

Definition header_only : list (list jsval) := [List.map VStr HEADERS].

(** A sheet in which the rows 2 and 3 both carry the [task_id] T1. *)
Definition duplicated_sheet : list (list jsval) :=
  [List.map VStr HEADERS;
   [VStr "T1"; VStr "first"];
   [VStr "T1"; VStr "second"]].

(** The scenario task fetched a second time under another name, and the
    record it normalizes to. *)
Definition renamed_task : jsval :=
  VObj [("id", VStr "42");
        ("status", VObj [("status", VStr "Done")]);
        ("archived", VBool false);
        ("custom_fields",
          VArr [VObj [("name", VStr "Page URL");
                      ("value", VStr "https://x/42")]]);
        ("date_closed", VNum 1700000000000);
        ("assignees", VArr [VObj [("username", VStr "amy")]]);
        ("name", VStr "Write more docs");
        ("url", VStr "https://app/42")].

Definition renamed_record : record :=
  {| task_id := "42";
     task_name := VStr "Write more docs";
     status := VStr "Done";
     assignees := "amy";
     page_url := "https://x/42";
     date_closed := "2023-11-14T22:13:20.000Z";
     url := VStr "https://app/42" |}.

(** The sheet after the overwrites of a run, and after its appends. *)
Definition after_overwrites (s : list (list jsval)) (records : list record)
  : list (list jsval) :=
  batchUpdate (updates_of (idToRow_of s) records) s.

Definition after_upsert (s : list (list jsval)) (records : list record)
  : list (list jsval) :=
  values_append (appends_of (idToRow_of s) records)
    (after_overwrites s records).

(** ** The run

    [main] of either script, from the fetched tasks on: the tasks are
    normalized first; then [getSheetsClient()] exchanges the credentials,
    which the list-scoped script parses only there; then the header is
    ensured and the records are upserted.  The result is the store as the
    run leaves it, with the two counts logged or the exception that ended
    the run.  [sync] is the run in which every collaborator answers; [run]
    is the run under whatever they answer. *)

(** The calls a run makes on the store, in the order it makes them: the two
    of [ensureHeaderRow], the three of [upsertByTaskId]. *)
Inductive store_call : Type :=
| ReadHeader
| WriteHeader
| ReadRows
| WriteRows
| AppendRows.

(** How a call fails: it is refused and changes nothing, or it is carried
    out and its answer does not arrive.  A call is carried out whole or not
    at all. *)
Inductive fault : Type := Refused | Lost.

(** What the collaborators of a run answer: the outcome of
    [getSheetsClient()], and for every call on the store whether it fails
    and how. *)
Record answers : Type := {
  client : completion unit;
  store : store_call -> option fault
}.

(** Every collaborator answers. *)
Definition answered (a : answers) : Prop :=
  client a = Return tt /\ forall call, store a call = None.

Section Main.
Context `{Host}.

Definition sync (PAGE_URL_FIELD_NAME : string) (tasks : list jsval)
    (s : list (list jsval)) : list (list jsval) * completion (nat * nat) :=
  match normalize PAGE_URL_FIELD_NAME tasks with
  | Throw e => (s, Throw e)
  | Return records =>
      let s := fst (ensureHeaderRow s) in
      let '(s, counts) := upsertByTaskId s records in
      (s, Return counts)
  end.

(** A write that is made when [due]: the store it leaves, from [before] to
    [after], and whether the run goes on. *)
Definition written (f : option fault) (due : bool)
    (before after : list (list jsval)) : list (list jsval) * bool :=
  if due then
    match f with
    | None => (after, true)
    | Some Refused => (before, false)
    | Some Lost => (after, false)
    end
  else (before, true).

Definition run (a : answers) (PAGE_URL_FIELD_NAME : string)
    (tasks : list jsval) (s : list (list jsval))
  : list (list jsval) * completion (nat * nat) :=
  match normalize PAGE_URL_FIELD_NAME tasks with
  | Throw e => (s, Throw e)
  | Return records =>
      match client a with
      | Throw e => (s, Throw e)
      | Return _ =>
          if bool_decide (is_Some (store a ReadHeader))
          then (s, Throw CollaboratorError)
          else
            let '(headed, wrote) := ensureHeaderRow s in
            let '(s, on) := written (store a WriteHeader) wrote s headed in
            if negb on then (s, Throw CollaboratorError)
            else if bool_decide (is_Some (store a ReadRows))
            then (s, Throw CollaboratorError)
            else
              let '(updates, appends) := schedule (idToRow_of s) records in
              let '(s, on) :=
                written (store a WriteRows) (negb (length updates =? 0)%nat)
                  s (batchUpdate updates s) in
              if negb on then (s, Throw CollaboratorError)
              else
                let '(s, on) :=
                  written (store a AppendRows)
                    (negb (length appends =? 0)%nat)
                    s (values_append appends s) in
                if negb on then (s, Throw CollaboratorError)
                else (s, Return (length updates, length appends))
      end
  end.

(** [main] of the team-scoped script *)
Definition main_team (PAGE_URL_FIELD_NAME : string) (src : page_source)
    (fuel : nat) (s : list (list jsval))
  : option (list (list jsval) * completion (nat * nat)) :=
  match fetchAllTasksFromTeam src fuel with
  | Some (tasks, _) => Some (sync PAGE_URL_FIELD_NAME tasks s)
  | None => None
  end.

(** [main] of the list-scoped script *)
Definition main_list (PAGE_URL_FIELD_NAME : string) (src : page_source)
    (fuel : nat) (s : list (list jsval))
  : option (list (list jsval) * completion (nat * nat)) :=
  match fetchAllTasksFromList src fuel with
  | Some (tasks, _) => Some (sync PAGE_URL_FIELD_NAME tasks s)
  | None => None
  end.

(** The value [toIso] is called on: [t.date_closed || t.date_done || ""] *)
Definition closing_value (t : jsval) : jsval :=
  or_else (if truthy (get t "date_closed") then get t "date_closed"
           else get t "date_done")
          (VStr "").

(** The closing value converts to a number, and that number is no date at
    all (NaN, or zero, which [toIso] takes for none) or a valid one, at most
    8.64e15 ms either side of the epoch. *)
Definition date_ok (t : jsval) : Prop :=
  ToPrimitive_throws (closing_value t) = false
  /\ match ToNumber (closing_value t) with
     | NaN => True
     | Int z => Z.abs z <= 8640000000000000
     | Frac w => Z.abs w < 8640000000000000
     | Infinity _ => False
     end.

End Main.

(** The status label of the task, the task's [id] and the names of its
    custom fields convert to strings. *)
Definition label_ok (t : jsval) : Prop :=
  ToPrimitive_throws
    (or_else (opt_member (opt_member t "status") "status") (VStr ""))
  = false.

Definition id_ok (t : jsval) : Prop :=
  ToPrimitive_throws (or_else (get t "id") (VStr "")) = false.

Definition names_ok (t : jsval) : Prop :=
  forall f, f ∈ match opt_member t "custom_fields" with
                | VArr l => l
                | _ => []
                end ->
    ToPrimitive_throws (name_value f) = false.

(** What stands for an assignee: [a.username || a.email || a.id] *)
Definition label_of (a : jsval) : jsval :=
  if truthy (get a "username") then get a "username"
  else if truthy (get a "email") then get a "email"
  else get a "id".

(** The task has no assignees, or a list of them without [null] entries,
    each standing under a label that converts to a string. *)
Definition assignees_ok (t : jsval) : Prop :=
  truthy (get t "assignees") = false
  \/ exists l,
       get t "assignees" = VArr l
       /\ Forall (fun a => nullish a = false
                           /\ ToPrimitive_throws (label_of a) = false) l.

(** Row 1 reads, in its cells A to G, as the seven column names, white
    space around a name apart. *)
Definition header_accepted (s : list (list jsval)) : Prop :=
  Forall2 (fun c h => trim (ToString c) = h)
    (trim_row (default [] (head s))) HEADERS.

(** ** Start-up

    The statements at the head of either script: the settings are read
    from the environment, the required ones are checked, and the
    team-scoped script goes on to parse and check the service account.
    The environment maps names to strings; a [throw new Error(message)]
    ends the start-up with that message. *)

Module Startup.

Inductive startup (A : Type) : Type :=
| Started (a : A)
| Failed (message : string)
| Thrown (e : exn).
Arguments Started {A} a.
Arguments Failed {A} message.
Arguments Thrown {A} e.

(** The settings; [CLICKUP_COLLECTION_ID] is [CLICKUP_TEAM_ID] in the
    team-scoped script and [CLICKUP_LIST_ID] in the list-scoped one. *)
Record config : Type := {
  CLICKUP_TOKEN : string;
  CLICKUP_COLLECTION_ID : string;
  GOOGLE_SHEET_ID : string;
  SHEET_TAB_NAME : string;
  PAGE_URL_FIELD_NAME : string;
  SA_JSON_RAW : string
}.

(** [(process.env.NAME || fallback).trim()] *)
Definition setting (env : gmap string string) (name fallback : string)
  : string :=
  trim match env !! name with
       | Some v => if String.eqb v "" then fallback else v
       | None => fallback
       end.

(** The reading and the four checks, with the name of the variable that
    holds the collection. *)
Definition startup_with (id_name : string) (env : gmap string string)
  : startup config :=
  let token := setting env "CLICKUP_TOKEN" "" in
  let id := setting env id_name "" in
  let sheet := setting env "GOOGLE_SHEET_ID" "" in
  let tab := setting env "SHEET_TAB_NAME" "Completed Tasks" in
  let field := setting env "PAGE_URL_FIELD_NAME" "Page URL" in
  let raw := default "" (env !! "GOOGLE_SERVICE_ACCOUNT_JSON") in
  if String.eqb token "" then Failed "Missing CLICKUP_TOKEN (GitHub Secret)."
  else if String.eqb id "" then
    Failed ("Missing " +:+ id_name +:+ " (GitHub Variable/Secret).")
  else if String.eqb sheet "" then
    Failed "Missing GOOGLE_SHEET_ID (GitHub Variable/Secret)."
  else if String.eqb raw "" then
    Failed "Missing GOOGLE_SERVICE_ACCOUNT_JSON (GitHub Secret)."
  else
    Started {| CLICKUP_TOKEN := token;
               CLICKUP_COLLECTION_ID := id;
               GOOGLE_SHEET_ID := sheet;
               SHEET_TAB_NAME := tab;
               PAGE_URL_FIELD_NAME := field;
               SA_JSON_RAW := raw |}.

(** The start-up of the list-scoped script *)
Definition startup_list (env : gmap string string) : startup config :=
  startup_with "CLICKUP_LIST_ID" env.

Definition backslash : ascii := ascii_of_nat 92.
Definition newline : ascii := ascii_of_nat 10.
Definition letter_n : ascii := ascii_of_nat 110.

(** [key.includes(e)], [e] being a backslash followed by the letter n *)
Fixpoint includes_escaped (s : string) : bool :=
  match s with
  | EmptyString => false
  | String c rest =>
      match rest with
      | EmptyString => false
      | String d _ =>
          Ascii.eqb c backslash && Ascii.eqb d letter_n
          || includes_escaped rest
      end
  end.

(** [key.replace(e, newline)] for every [e], from left to right *)
Fixpoint unescape (s : string) : string :=
  match s with
  | EmptyString => EmptyString
  | String c rest =>
      match rest with
      | EmptyString => String c EmptyString
      | String d rest' =>
          if Ascii.eqb c backslash && Ascii.eqb d letter_n
          then String newline (unescape rest')
          else String c (unescape rest)
      end
  end.

(** [SA_PRIVATE_KEY], from [SA.private_key] *)
Definition private_key_of (key : jsval) : jsval :=
  match key with
  | VStr k => if includes_escaped k then VStr (unescape k) else key
  | _ => key
  end.

(** The service account as parsed, and the private key to sign with *)
Record service_account : Type := {
  SA : jsval;
  SA_PRIVATE_KEY : jsval
}.

(** The start-up of the team-scoped script; [parse] is [JSON.parse], with
    [None] where it throws. *)
Definition startup_team (parse : string -> option jsval)
    (env : gmap string string) : startup (config * service_account) :=
  match startup_with "CLICKUP_TEAM_ID" env with
  | Failed message => Failed message
  | Thrown e => Thrown e
  | Started cfg =>
      match parse (SA_JSON_RAW cfg) with
      | None => Failed "GOOGLE_SERVICE_ACCOUNT_JSON is not valid JSON."
      | Some sa =>
          match opt_member sa "type" with
          | VStr "service_account" =>
              if negb (truthy (opt_member sa "client_email")) then
                Failed "Service account client_email is missing."
              else if negb (truthy (opt_member sa "private_key")) then
                Failed "Service account private_key is missing."
              else
                Started (cfg,
                         {| SA := sa;
                            SA_PRIVATE_KEY :=
                              private_key_of (get sa "private_key") |})
          | other =>
              match String_ other with
              | Return got =>
                  Failed ("GOOGLE_SERVICE_ACCOUNT_JSON must be a service "
                          +:+ "account key (type=service_account). Got: "
                          +:+ got)
              | Throw e => Thrown e
              end
          end
      end
  end.

End Startup.
Export Startup.

(** An environment with the four required settings, the token given with
    a line break after it. *)
Definition sample_env : gmap string string :=
  <["CLICKUP_TOKEN" := "pk_1" +:+ String newline EmptyString]>
    (<["CLICKUP_LIST_ID" := "901"]>
       (<["GOOGLE_SHEET_ID" := "sheet"]>
          (<["GOOGLE_SERVICE_ACCOUNT_JSON" := "{}"]> ∅))).

(** An environment of the team-scoped script, and a parser that reads its
    credentials as a service account whose key has an escaped line
    break. *)
Definition sample_team_env : gmap string string :=
  <["CLICKUP_TOKEN" := "pk_1"]>
    (<["CLICKUP_TEAM_ID" := "77"]>
       (<["GOOGLE_SHEET_ID" := "sheet"]>
          (<["GOOGLE_SERVICE_ACCOUNT_JSON" := "account"]> ∅))).

Definition sample_account : jsval :=
  VObj [("type", VStr "service_account");
        ("client_email", VStr "bot@example.com");
        ("private_key",
          VStr ("KEY" +:+ String backslash (String letter_n EmptyString)))].

Definition sample_parse (raw : string) : option jsval :=
  if String.eqb raw "account" then Some sample_account else None.

(** * Properties *)

(** ** Task Classifier *)

Lemma includes_In (l : list string) (s : string) :
  includes l s = true <-> In s l.
Proof.
  unfold includes. rewrite existsb_exists. split.
  - intros (x & Hx & Heq). apply String.eqb_eq in Heq. by subst.
  - intros Hin. exists s. split; [done | apply String.eqb_refl].
Qed.

Lemma strictly_true_spec (v : jsval) :
  strictly_true v = true <-> v = VBool true.
Proof.
  split; [| by intros ->].
  destruct v as [| | [|] | | | |]; simpl; congruence.
Qed.

(** The digits of a number begin with a digit or with the sign. *)
Lemma Number_toString_head (z : Z) :
  exists c rest,
    Number_toString z = String c rest /\ (nat_of_ascii c < 65)%nat.
Proof.
  unfold Number_toString, NilZero.string_of_int, NilZero.string_of_uint.
  destruct (Z.to_int z) as [d | d]; destruct d; simpl;
    eexists _, _; (split; [reflexivity | by apply Nat.ltb_lt]).
Qed.

Lemma terminal_head (c : ascii) (rest : string) :
  terminal (toLowerCase (String c rest)) -> (97 <= nat_of_ascii c)%nat \/
  (65 <= nat_of_ascii c <= 90)%nat.
Proof.
  unfold terminal. simpl. unfold lower_ascii.
  destruct ((65 <=? nat_of_ascii c)%nat && (nat_of_ascii c <=? 90)%nat)
    eqn:Hupper.
  - apply andb_true_iff in Hupper as [?%Nat.leb_le ?%Nat.leb_le]. right. lia.
  - intros Hin. left.
    repeat (destruct Hin as [Heq | Hin];
            [injection Heq as Hc _; subst c; by apply Nat.leb_le |]).
    destruct Hin.
Qed.

Lemma isDone_label (task : jsval) :
  let label :=
    or_else (opt_member (opt_member task "status") "status") (VStr "") in
  ToPrimitive_throws label = false ->
  isDone task
  = Return (includes DONE_LABELS (toLowerCase (ToString label))
            || strictly_true (opt_member task "archived")).
Proof.
  cbv zeta. intros Hconv. unfold isDone, status_label, String_.
  by rewrite Hconv.
Qed.

Lemma done_spec (s : string) (archived : jsval) :
  includes DONE_LABELS (toLowerCase s) || strictly_true archived = true <->
  terminal (toLowerCase s) \/ archived = VBool true.
Proof.
  rewrite orb_true_iff, includes_In, strictly_true_spec. reflexivity.
Qed.

(** C4, as the code has it.  The status label is [task?.status?.status],
    the empty string standing in for a falsy one.  For a label that is a
    string, [isDone] returns true exactly when the lower-cased label, taken
    as it stands without trimming, is one of the six terminal labels, or the
    archived flag is [true].  A falsy label, a number, a boolean and a plain
    object read as no terminal label, so that only the archived flag counts;
    an array reads as its elements joined by commas.  A label that cannot be
    converted to a string, an object with an own property [toString] or an
    array that holds one, makes [isDone] throw a TypeError. *)
Theorem isDone_iff (task : jsval) :
  let label := opt_member (opt_member task "status") "status" in
  let archived := opt_member task "archived" in
  (forall s, label = VStr s ->
     exists done,
       isDone task = Return done
       /\ (done = true <->
           terminal (toLowerCase s) \/ archived = VBool true))
  /\ (truthy label = false \/ typeof label = TNumber
      \/ typeof label = TBoolean
      \/ (exists ps, label = VObj ps /\ has_own "toString" ps = false) ->
      exists done,
        isDone task = Return done /\ (done = true <-> archived = VBool true))
  /\ (forall l, label = VArr l -> ToPrimitive_throws label = false ->
      exists done,
        isDone task = Return done
        /\ (done = true <->
            terminal (toLowerCase (ToString label)) \/ archived = VBool true))
  /\ (ToPrimitive_throws label = true -> isDone task = Throw TypeError).
Proof.
  cbv zeta. pose proof (isDone_label task) as Hlabel. cbv zeta in Hlabel.
  set (label := opt_member (opt_member task "status") "status") in *.
  set (archived := opt_member task "archived") in *.
  split; [| split; [| split]].
  - intros s Hs. eexists. split.
    + apply Hlabel. rewrite Hs. unfold or_else. by destruct (truthy (VStr s)).
    + rewrite done_spec. rewrite Hs. unfold or_else. simpl.
      by destruct (negb (String.eqb s "")) eqn:Hempty;
        [| apply negb_false_iff, String.eqb_eq in Hempty; subst s].
  - intros Hshape.
    assert (Hconv : ToPrimitive_throws (or_else label (VStr "")) = false
                    /\ ~ terminal
                          (toLowerCase (ToString (or_else label (VStr ""))))).
    { unfold or_else. destruct (truthy label) eqn:Htruthy.
      - destruct Hshape as [Hfalsy | [Hnum | [Hbool | (ps & Hps & Hown)]]].
        + congruence.
        + destruct label as [| | b | z | x | l | ps]; try discriminate.
          split; [done |]. simpl.
          destruct (Number_toString_head z) as (c & rest & -> & Hc).
          intros [Hc' | Hc']%terminal_head; lia.
        + destruct label as [| | b | z | x | l | ps]; try discriminate.
          split; [done |]. unfold terminal. destruct b; simpl;
            intros Hin; repeat (destruct Hin as [Heq | Hin];
                                [discriminate |]); destruct Hin.
        + rewrite Hps. split; [done |]. unfold terminal. simpl.
          intros Hin; repeat (destruct Hin as [Heq | Hin];
                              [discriminate |]); destruct Hin.
      - split; [done |]. unfold terminal. simpl.
        intros Hin; repeat (destruct Hin as [Heq | Hin];
                            [discriminate |]); destruct Hin. }
    destruct Hconv as [Hconv Hno].
    eexists. split; [by apply Hlabel |]. rewrite done_spec. tauto.
  - intros l Hl Hconv. eexists. split.
    + apply Hlabel. by rewrite Hl in *.
    + rewrite done_spec. by rewrite Hl.
  - intros Hthrows. unfold isDone, status_label, String_.
    fold label. unfold or_else.
    destruct (truthy label) eqn:Htruthy; [by rewrite Hthrows |].
    by destruct label.
Qed.

(** C4 as stated fails: the label ["done "] trims and lower-cases to a
    terminal label, the task is not archived, and [isDone] is false; and on
    an archived task whose label is an object with an own property
    [toString], [isDone] does not return true, nor anything. *)
Lemma isDone_trimmed_label_counterexample :
  let task := VObj [("status", VObj [("status", VStr "done ")]);
                    ("archived", VBool false)] in
  let archived :=
    VObj [("status", VObj [("status", VObj [("toString", VNum 1)])]);
          ("archived", VBool true)] in
  ~ (isDone task = Return true <->
     (exists label,
        status_label task = Return label
        /\ In (toLowerCase (trim label)) DONE_LABELS)
     \/ opt_member task "archived" = VBool true)
  /\ ~ (isDone archived = Return true <->
        (exists label,
           status_label archived = Return label
           /\ In (toLowerCase (trim label)) DONE_LABELS)
        \/ opt_member archived "archived" = VBool true).
Proof.
  intros task archived. split.
  - intros [_ Hback].
    assert (Hfalse : isDone task = Return false) by reflexivity.
    rewrite Hback in Hfalse; [discriminate |].
    left. exists "done ". split; [reflexivity |]. vm_compute. tauto.
  - intros [_ Hback].
    assert (Hthrows : isDone archived = Throw TypeError) by reflexivity.
    rewrite Hback in Hthrows; [discriminate | by right].
Qed.

(** Labels of each shape: a string in capitals, a string with a blank
    before it, an array of one string, a number on an archived task, a
    plain object. *)
Example isDone_samples :
  let task label archived :=
    VObj [("status", VObj [("status", label)]); ("archived", archived)] in
  List.map isDone
    [task (VStr "DONE") (VBool false); task (VStr " done") (VBool false);
     task (VArr [VStr "Closed"]) VUndef; task (VNum 7) (VBool true);
     task (VObj [("label", VStr "done")]) (VStr "true")]
  = [Return true; Return false; Return true; Return true; Return false].
Proof. reflexivity. Qed.

(** A label that is an object with an own property [toString] cannot be
    converted, and [isDone] throws, also on an archived task. *)
Example isDone_throws :
  isDone (VObj [("status",
                  VObj [("status", VObj [("toString", VNum 1)])]);
                ("archived", VBool true)])
  = Throw TypeError.
Proof. reflexivity. Qed.

(** ** Field Extractor *)

Section ExtractorFacts.
Context `{Host}.








Lemma coerce_value_object (v : jsval) :
  typeof v = TObject -> nullish v = false ->
  exists s, coerce_value v = Return s /\ coerced v s.
Proof.
  intros Hobj Hnn. unfold coerce_value, member. rewrite Hnn, Hobj. simpl.
  destruct (get v "url") as [| | | | u | |] eqn:Hu;
    try (destruct (get v "value") as [| | | | w | |] eqn:Hw;
         [ .. | | | ];
         try (exists (default "" (JSON_stringify v)); split;
              [ by destruct (JSON_stringify v)
              | unfold coerced; rewrite Hnn, Hu, Hw; simpl;
                repeat split; try congruence; intros; subst; simpl in *;
                congruence ]);
         exists w; split; [done |];
         unfold coerced; rewrite Hnn, Hu, Hw; simpl;
         repeat split; try congruence; intros; subst; simpl in *; congruence).
  exists u. split; [done |].
  unfold coerced. rewrite Hnn, Hu. simpl.
  repeat split; try congruence; intros; subst; simpl in *; congruence.
Qed.

Lemma coerce_value_total (v : jsval) :
  exists s, coerce_value v = Return s /\ coerced v s.
Proof.
  destruct v as [| | b | z | x | l | ps];
    try (apply coerce_value_object; reflexivity).
  - exists "". split; [done |]. unfold coerced. simpl. repeat split; congruence.
  - exists "". split; [done |]. unfold coerced. simpl. repeat split; congruence.
  - exists "". split; [done |]. unfold coerced. simpl. repeat split; congruence.
  - exists (Number_toString z). split; [done |]. unfold coerced. simpl.
    repeat split; try congruence. by intros ? [= <-] _.
  - exists x. split; [done |]. unfold coerced. simpl. repeat split; congruence.
Qed.

Lemma falsy_get (f : jsval) (k : string) : truthy f = false -> get f k = VUndef.
Proof. by destruct f. Qed.

Lemma truthy_not_nullish (f : jsval) : truthy f = true -> nullish f = false.
Proof. by destruct f. Qed.

(** What [getCustomFieldValue] does once [find] has returned [f]. *)
Lemma getCustomFieldValue_found (task : jsval) (fieldName : string)
    (f : jsval) :
  find (field_matches fieldName) (custom_fields_of task) = Return f ->
  exists s,
    getCustomFieldValue task fieldName = Return s
    /\ coerced (get f "value") s.
Proof.
  intros Hfind. unfold getCustomFieldValue. rewrite Hfind. simpl.
  destruct (truthy f) eqn:Hf; simpl.
  - unfold member. rewrite (truthy_not_nullish _ Hf). simpl.
    apply coerce_value_total.
  - exists "". split; [done |]. rewrite (falsy_get f "value" Hf).
    unfold coerced. simpl. repeat split; congruence.
Qed.


End ExtractorFacts.



(** The samples of the specification: the string ["5"], the number 5 and
    an object whose [url] is ["5"] all come out as ["5"], under a name
    written in another case and with blanks around it; [null] comes out
    empty, and so does a name that is not there. *)
Example getCustomFieldValue_samples :
  let field v := VObj [("name", VStr " page url "); ("value", v)] in
  let task v := VObj [("custom_fields", VArr [field v])] in
  List.map
    (fun v => getCustomFieldValue (H := IntegerHost.host) (task v) "Page URL")
    [VStr "5"; VNum 5; VObj [("url", VStr "5")]; VNull;
     VObj [("id", VNum 5)]]
  = [Return "5"; Return "5"; Return "5"; Return "";
     Return (IntegerHost.json_text (VObj [("id", VNum 5)]))]
  /\ getCustomFieldValue (H := IntegerHost.host) (task (VStr "5")) "Other"
     = Return "".
Proof. split; reflexivity. Qed.

(** ** Task Source Paginator *)

Lemma team_loop_endless (src : page_source) :
  (forall p, src p <> []) ->
  forall fuel page all asked, team_loop src fuel page all asked = None.
Proof.
  intros Hsrc. induction fuel as [| fuel IH]; intros page all asked; [done |].
  simpl. destruct (src page) eqn:Hp; [by apply Hsrc in Hp |]. simpl. apply IH.
Qed.

(** C3 at its failing input: against a source that answers every page with
    one task, the team-scoped paginator has no page bound and does not
    return, whatever number of iterations it is given. *)
Theorem fetchAllTasksFromTeam_endless (fuel : nat) :
  fetchAllTasksFromTeam (fun _ => [some_task]) fuel = None.
Proof. unfold fetchAllTasksFromTeam. by apply team_loop_endless. Qed.

(** With an empty page in sight the team-scoped paginator stops there. *)
Lemma team_loop_stops (src : page_source) (n : nat) :
  forall page all asked fuel,
    (forall i, (i < n)%nat -> src (page + i)%nat <> []) ->
    src (page + n)%nat = [] ->
    (n < fuel)%nat ->
    team_loop src fuel page all asked
    = Some ((all ++ concat (List.map src (seq page n)))%list,
            (asked ++ seq page (S n))%list).
Proof.
  induction n as [| n IH]; intros page all asked fuel Hfull Hempty Hfuel;
    (destruct fuel as [| fuel]; [lia |]); simpl.
  - rewrite Nat.add_0_r in Hempty. rewrite Hempty. simpl.
    by rewrite !app_nil_r.
  - destruct (src page) as [| t ts] eqn:Hp.
    { specialize (Hfull 0%nat). rewrite Nat.add_0_r in Hfull.
      exfalso. apply Hfull; [lia | done]. }
    simpl length. simpl Nat.eqb. cbv iota.
    rewrite IH.
    + f_equal. f_equal.
      * by rewrite <- app_assoc.
      * by rewrite <- app_assoc.
    + intros i Hi. replace (S page + i)%nat with (page + S i)%nat by lia.
      apply Hfull. lia.
    + by replace (S page + n)%nat with (page + S n)%nat by lia.
    + lia.
Qed.

(** The list-scoped paginator: from page [page], with [k] pages left before
    the cap, it returns within [k] requests. *)
Lemma list_loop_bounded (src : page_source) (k : nat) :
  forall page all asked fuel,
    (page + k = 201)%nat -> (1 <= k)%nat -> (k <= fuel)%nat ->
    exists n,
      (1 <= n <= k)%nat
      /\ list_loop src fuel page all asked
         = Some ((all ++ concat (List.map src (seq page n)))%list,
                 (asked ++ seq page n)%list)
      /\ (forall i, (i < n - 1)%nat -> src (page + i)%nat <> [])
      /\ (src (page + n - 1)%nat = [] \/ n = k).
Proof.
  induction k as [| k IH]; intros page all asked fuel Hpage Hk Hfuel; [lia |].
  destruct fuel as [| fuel]; [lia |]. simpl.
  destruct (src page) as [| t ts] eqn:Hp.
  - exists 1%nat. simpl. rewrite Hp, !app_nil_r.
    repeat split; [lia | lia | intros i Hi; lia |].
    left. by replace (page + 1 - 1)%nat with page by lia.
  - simpl length. simpl Nat.eqb. cbv iota.
    destruct (decide (k = 0%nat)) as [-> | Hk0].
    + replace (200 <? S page)%nat with true
        by (symmetry; apply Nat.ltb_lt; lia).
      exists 1%nat. simpl. rewrite Hp, !app_nil_r.
      repeat split; [lia | lia | intros i Hi; lia | by right].
    + replace (200 <? S page)%nat with false
        by (symmetry; apply Nat.ltb_ge; lia).
      destruct (IH (S page) (all ++ t :: ts)%list (asked ++ [page])%list fuel)
        as (n & Hn & Hrun & Hfull & Hstop); [lia | lia | lia |].
      exists (S n). split; [lia |]. split; [| split].
      * rewrite Hrun. simpl. rewrite Hp. f_equal. f_equal.
        -- by rewrite <- app_assoc.
        -- by rewrite <- app_assoc.
      * intros i Hi. destruct i as [| i].
        -- rewrite Nat.add_0_r, Hp. done.
        -- replace (page + S i)%nat with (S page + i)%nat by lia.
           apply Hfull. lia.
      * destruct Hstop as [Hstop | ->]; [left | by right].
        by replace (page + S n - 1)%nat with (S page + n - 1)%nat by lia.
Qed.

(** The list-scoped paginator does what C3 asks: for every source it returns
    once it is given 201 iterations, having requested pages 0, 1, ... and no
    more than 201 of them; it returns the pages it received, in order; and
    it stops at the first empty page or after page 200. *)
Lemma fetchAllTasksFromList_bounded (src : page_source) :
  exists n,
    (1 <= n <= 201)%nat
    /\ (forall fuel, (201 <= fuel)%nat ->
        fetchAllTasksFromList src fuel
        = Some (concat (List.map src (seq 0 n)), seq 0 n))
    /\ (forall i, (i < n - 1)%nat -> src i <> [])
    /\ (src (n - 1)%nat = [] \/ n = 201%nat).
Proof.
  destruct (list_loop_bounded src 201 0 [] [] 201)
    as (n & Hn & _ & Hfull & Hstop);
    [lia | lia | lia |].
  exists n. split; [done |]. split; [| split; [done |]].
  - intros fuel Hfuel. unfold fetchAllTasksFromList.
    destruct (list_loop_bounded src 201 0 [] [] fuel)
      as (n' & Hn' & Hrun' & Hfull' & Hstop'); [lia | lia | lia |].
    assert (n' = n) as ->.
    { destruct (Nat.lt_trichotomy n' n) as [Hlt | [Heq | Hgt]]; [| done |].
      - destruct Hstop' as [Hstop' | ->]; [| lia].
        exfalso. apply (Hfull (n' - 1)%nat); [lia |].
        by replace (0 + n' - 1)%nat with (n' - 1)%nat in Hstop' by lia.
      - destruct Hstop as [Hstop | ->]; [| lia].
        exfalso. apply (Hfull' (n - 1)%nat); [lia |].
        by replace (0 + n - 1)%nat with (n - 1)%nat in Hstop by lia. }
    by rewrite Hrun'.
  - destruct Hstop as [Hstop | ->]; [left | by right].
    by replace (0 + n - 1)%nat with (n - 1)%nat in Hstop by lia.
Qed.

(** ** Record Normalizer *)

Section NormalizerFacts.
Context `{Host}.

(** C7: the scenario task normalizes to exactly the scenario record, its
    closing time of 1700000000000 ms written as
    [2023-11-14T22:13:20.000Z]. *)
Theorem normalize_scenario :
  normalize "Page URL" [scenario_task] = Return [scenario_record].
Proof. reflexivity. Qed.

Lemma mapM_Return {A B : Type} (f : A -> completion B) (l : list A)
    (ys : list B) :
  mapM f l = Return ys -> Forall2 (fun x y => f x = Return y) l ys.
Proof.
  revert ys. induction l as [| x l IH]; simpl; intros ys Hys.
  - injection Hys as <-. constructor.
  - unfold mbind, completion_bind in Hys.
    destruct (f x) as [y |] eqn:Hfx; [| discriminate].
    destruct (mapM f l) as [k |] eqn:Hk; [| discriminate].
    injection Hys as <-. constructor; [done | by apply IH].
Qed.

Lemma or_else_not_nullish (a : jsval) : nullish (or_else a (VStr "")) = false.
Proof. unfold or_else. destruct (truthy a) eqn:Ha; [| done]. by destruct a. Qed.

Lemma or_else_string (a : jsval) :
  typeof (or_else a (VStr "")) = TString <->
  typeof a = TString \/ truthy a = false.
Proof.
  unfold or_else. destruct (truthy a) eqn:Ha.
  - split; [by left | by intros [? | ?]].
  - split; [by right | done].
Qed.

(** What the object literal of [normalize] puts in a record. *)
Lemma to_record_fields (field : string) (t : jsval) (r : record) :
  to_record field t = Return r ->
  task_id r = ToString (or_else (get t "id") (VStr ""))
  /\ task_name r = or_else (get t "name") (VStr "")
  /\ status r = or_else (opt_member (get t "status") "status") (VStr "")
  /\ url r = or_else (get t "url") (VStr "").
Proof.
  unfold to_record, member. destruct (nullish t); [discriminate |].
  unfold String_.
  unfold mbind, completion_bind, mret, completion_ret.
  destruct (ToPrimitive_throws (or_else (get t "id") (VStr "")));
    [discriminate |].
  destruct (array_map _ _); [| discriminate].
  destruct (join _ _); [| discriminate].
  destruct (getCustomFieldValue _ _); [| discriminate].
  destruct (if truthy (get t "date_closed") then _ else _); [| discriminate].
  destruct (toIso _); [| discriminate].
  by intros [= <-].
Qed.

(** What [filter] returns: the elements accepted, the predicate having
    returned on every element. *)
Lemma array_filter_Return (p : jsval -> completion bool) (l ys : list jsval) :
  array_filter p l = Return ys ->
  Forall (fun x => exists b, p x = Return b) l
  /\ ys = List.filter (accepts p) l.
Proof.
  revert ys. induction l as [| x l IH]; simpl; intros ys Hys.
  - injection Hys as <-. by split.
  - unfold mbind, completion_bind, mret, completion_ret in Hys.
    destruct (p x) as [b |] eqn:Hpx; [| discriminate].
    destruct (array_filter p l) as [rest |]; [| discriminate].
    injection Hys as <-. destruct (IH rest eq_refl) as [Hall ->].
    split; [constructor; [by exists b | done] |].
    replace (accepts p x) with b; [done |].
    unfold accepts. rewrite Hpx. by destruct b.
Qed.

Lemma normalize_Return (field : string) (tasks : list jsval)
    (rs : list record) :
  normalize field tasks = Return rs ->
  forall r, r ∈ rs ->
    task_id r <> ""
    /\ exists t,
         t ∈ tasks /\ isDone t = Return true /\ to_record field t = Return r.
Proof.
  unfold normalize. unfold mbind, completion_bind, mret, completion_ret.
  destruct (array_filter isDone tasks) as [finished |] eqn:Hdone;
    [| discriminate].
  apply array_filter_Return in Hdone as [_ ->].
  destruct (mapM _ _) as [all |] eqn:Hall; [| discriminate].
  intros [= <-] r Hr.
  apply list_elem_of_In, filter_In in Hr as [Hr Hid]. split.
  - simpl in Hid. intros Heq. by rewrite Heq in Hid.
  - apply mapM_Return in Hall.
    apply list_elem_of_In in Hr.
    destruct (list_elem_of_lookup_1 _ _ Hr) as [i Hi].
    destruct (Forall2_lookup_r _ _ _ i r Hall Hi) as (t & Ht & Htr).
    exists t. apply list_elem_of_lookup_2, list_elem_of_In, filter_In in Ht.
    destruct Ht as [Ht Hdone]. rewrite list_elem_of_In.
    unfold accepts in Hdone. by destruct (isDone t) as [[|] |].
Qed.

(** C6, as the code has it: every record that [normalize] returns has a
    non-empty [task_id]; its [task_id], [assignees], [page_url] and
    [date_closed] are strings; its [task_name], [status] and [url] are
    never null or undefined: each is the task's own value when that is
    truthy and the empty string otherwise, hence a string exactly when the
    task holds a string or nothing truthy there. *)
Theorem normalize_fields (field : string) (tasks : list jsval)
    (rs : list record) (r : record) :
  normalize field tasks = Return rs -> r ∈ rs ->
  task_id r <> ""
  /\ nullish (task_name r) = false
  /\ nullish (status r) = false
  /\ nullish (url r) = false
  /\ exists t,
       t ∈ tasks /\ isDone t = Return true
       /\ task_id r = ToString (or_else (get t "id") (VStr ""))
       /\ task_name r = or_else (get t "name") (VStr "")
       /\ status r = or_else (opt_member (get t "status") "status") (VStr "")
       /\ url r = or_else (get t "url") (VStr "")
       /\ (typeof (task_name r) = TString <->
           typeof (get t "name") = TString \/ truthy (get t "name") = false)
       /\ (typeof (status r) = TString <->
           typeof (opt_member (get t "status") "status") = TString
           \/ truthy (opt_member (get t "status") "status") = false)
       /\ (typeof (url r) = TString <->
           typeof (get t "url") = TString \/ truthy (get t "url") = false).
Proof.
  intros Hrs Hr.
  destruct (normalize_Return _ _ _ Hrs r Hr) as (Hid & t & Ht & Hdone & Htr).
  destruct (to_record_fields _ _ _ Htr) as (Eid & Ename & Estatus & Eurl).
  split; [done |].
  rewrite Ename, Estatus, Eurl, !or_else_not_nullish.
  repeat split; try done.
  exists t. rewrite <- Ename, <- Estatus, <- Eurl.
  repeat split; try done.
  all: rewrite ?Ename, ?Estatus, ?Eurl; apply or_else_string.
Qed.

End NormalizerFacts.

(** The theorem at the scenario of the specification. *)
Lemma normalize_fields_witness :
  task_id scenario_record <> ""
  /\ nullish (task_name scenario_record) = false
  /\ nullish (status scenario_record) = false
  /\ nullish (url scenario_record) = false.
Proof.
  destruct (normalize_fields (H := IntegerHost.host) "Page URL"
              [scenario_task] [scenario_record] scenario_record)
    as (H1 & H2 & H3 & H4 & _).
  - reflexivity.
  - apply list_elem_of_In. simpl. by left.
  - by repeat split.
Defined.

(** C6 as stated fails: a finished task whose [name] is the number 7
    normalizes to a record whose [task_name] is that number, not a
    string. *)
Lemma normalize_number_name_counterexample :
  let task := VObj [("id", VStr "1"); ("name", VNum 7);
                    ("status", VObj [("status", VStr "done")])] in
  exists r,
    normalize (H := IntegerHost.host) "Page URL" [task] = Return [r]
    /\ task_name r = VNum 7
    /\ typeof (task_name r) <> TString.
Proof.
  eexists. split; [reflexivity |]. split; [reflexivity | discriminate].
Qed.

(** ** The tabular store *)

Lemma drop_trailing_all {A : Type} (p : A -> bool) (l : list A) :
  forallb p l = true -> drop_trailing p l = [].
Proof.
  induction l as [| x l IH]; simpl; [done |].
  intros [Hx Hl]%andb_true_iff. by rewrite IH, Hx.
Qed.

(** A list splits into what [drop_trailing] keeps and a rest that satisfies
    [p] throughout. *)
Lemma drop_trailing_split {A : Type} (p : A -> bool) (l : list A) :
  exists rest,
    l = (drop_trailing p l ++ rest)%list /\ forallb p rest = true.
Proof.
  induction l as [| x l (rest & Hl & Hrest)]; simpl.
  - by exists [].
  - destruct (drop_trailing p l) as [| y t] eqn:Hdt.
    + destruct (p x) eqn:Hx.
      * exists (x :: l). split; [done |]. simpl in Hl. subst rest.
        simpl. rewrite Hx. exact Hrest.
      * exists rest. simpl in Hl. by subst rest.
    + exists rest. split; [| done]. simpl. by rewrite Hl at 1.
Qed.

Lemma drop_trailing_keeps {A : Type} (p : A -> bool) (l : list A) (i : nat)
    (x : A) :
  l !! i = Some x -> p x = false -> (i < length (drop_trailing p l))%nat.
Proof.
  intros Hi Hx.
  destruct (drop_trailing_split p l) as (rest & Hl & Hrest).
  destruct (decide (i < length (drop_trailing p l))%nat) as [| Hge]; [done |].
  rewrite Hl, lookup_app_r in Hi by lia.
  rewrite forallb_forall in Hrest.
  apply list_elem_of_lookup_2, list_elem_of_In, Hrest in Hi. congruence.
Qed.

Lemma drop_trailing_length {A : Type} (p : A -> bool) (l : list A) :
  (length (drop_trailing p l) <= length l)%nat.
Proof.
  destruct (drop_trailing_split p l) as (rest & Hl & _).
  rewrite Hl at 2. rewrite length_app. lia.
Qed.

Lemma drop_trailing_beyond {A : Type} (p : A -> bool) (l : list A) (i : nat)
    (x : A) :
  (length (drop_trailing p l) <= i)%nat -> l !! i = Some x -> p x = true.
Proof.
  intros Hge Hi.
  destruct (drop_trailing_split p l) as (rest & Hl & Hrest).
  rewrite Hl, lookup_app_r in Hi by lia.
  rewrite forallb_forall in Hrest.
  by apply list_elem_of_lookup_2, list_elem_of_In, Hrest in Hi.
Qed.

Lemma row_blank_trim (r : list jsval) : row_blank r = true -> trim_row r = [].
Proof. apply drop_trailing_all. Qed.

(** ** Header Guard *)

Lemma header_row_read (tail : list jsval) (rest : list (list jsval)) :
  values_get 1 (Some 1%nat) ((List.map VStr HEADERS ++ tail)%list :: rest)
  = Some [List.map VStr HEADERS].
Proof. reflexivity. Qed.

(** C8: on a store whose row 1 is empty (or that has no row at all) the
    Header Guard writes, and leaves the seven column names in the cells A
    to G of row 1, in order, and every other row as it was; run again on
    the store it left, it finds the header in place and writes nothing. *)
Theorem ensureHeaderRow_writes_once (s : list (list jsval)) :
  header_present s = false ->
  exists s1,
    ensureHeaderRow s = (s1, true)
    /\ take 7 <$> s1 !! 0%nat = Some (List.map VStr HEADERS)
    /\ (forall j, (1 <= j)%nat -> s1 !! j = s !! j)
    /\ ensureHeaderRow s1 = (s1, false).
Proof.
  destruct s as [| r rest]; simpl; intros Hblank.
  - exists [List.map VStr HEADERS]. repeat split; try reflexivity.
    intros j Hj. by destruct j; [lia |].
  - apply negb_false_iff in Hblank.
    exists ((List.map VStr HEADERS ++ drop 7 r)%list :: rest).
    split; [| split; [reflexivity | split]].
    + unfold ensureHeaderRow, values_get. simpl.
      rewrite (row_blank_trim r Hblank). reflexivity.
    + intros j Hj. by destruct j; [lia |].
    + unfold ensureHeaderRow. rewrite header_row_read. reflexivity.
Qed.

(** The theorem on the store that has no row at all. *)
Lemma ensureHeaderRow_writes_once_witness :
  exists s1,
    ensureHeaderRow [] = (s1, true)
    /\ take 7 <$> s1 !! 0%nat = Some (List.map VStr HEADERS)
    /\ (forall j, (1 <= j)%nat -> s1 !! j = [] !! j)
    /\ ensureHeaderRow s1 = (s1, false).
Proof. apply (ensureHeaderRow_writes_once []). reflexivity. Defined.

(** What the guard leaves always has its header row. *)
Lemma ensureHeaderRow_header_present (s : list (list jsval)) :
  header_present (fst (ensureHeaderRow s)) = true.
Proof.
  unfold ensureHeaderRow.
  destruct s as [| r rest]; [reflexivity |].
  destruct (row_blank r) eqn:Hblank.
  - unfold values_get. simpl. rewrite (row_blank_trim r Hblank). reflexivity.
  - destruct (negb _); [reflexivity |]. simpl. by rewrite Hblank.
Qed.

(** ** Sheet Reconciler: the mapping *)

Lemma cell_empty_falsy (c : jsval) : cell_empty c = true -> truthy c = false.
Proof. destruct c; simpl; try discriminate. by intros ->. Qed.

Lemma row_key_trim (r : list jsval) : row_key (trim_row r) = row_key r.
Proof.
  destruct r as [| c r]; [done |]. unfold trim_row. simpl.
  destruct (drop_trailing cell_empty (take 6 r)); [| done].
  destruct (cell_empty c) eqn:Hc; [| done].
  simpl. by rewrite (cell_empty_falsy c Hc).
Qed.

Lemma row_blank_no_key (r : list jsval) :
  row_blank r = true -> row_key r = None.
Proof.
  intros Hr. rewrite <- row_key_trim. by rewrite (row_blank_trim r Hr).
Qed.

Lemma row_key_not_blank (r : list jsval) (k : string) :
  row_key r = Some k -> row_blank r = false.
Proof.
  intros Hk. destruct (row_blank r) eqn:Hr; [| done].
  rewrite (row_blank_no_key r Hr) in Hk. discriminate.
Qed.

Lemma last_key_None (k : string) (rows : list (list jsval)) :
  last_key k rows = None <->
  forall j r, rows !! j = Some r -> row_key r <> Some k.
Proof.
  induction rows as [| r0 rows IH]; simpl.
  - split; [by intros _ j r | done].
  - destruct (last_key k rows) as [j0 |] eqn:Hlast.
    + split; [done |]. intros Hno. exfalso.
      assert (Some j0 = None) as [=]. apply IH.
      intros j r Hj. apply (Hno (S j) r Hj).
    + case_bool_decide as Hkey.
      * split; [done |]. intros Hno. by destruct (Hno 0%nat r0).
      * split; [| done]. intros _ [| j] r Hj; simpl in Hj.
        -- by injection Hj as <-.
        -- by apply (proj1 IH eq_refl j r).
Qed.

Lemma last_key_Some (k : string) (rows : list (list jsval)) (j : nat) :
  last_key k rows = Some j <->
  (exists r, rows !! j = Some r /\ row_key r = Some k)
  /\ (forall j' r', (j < j')%nat -> rows !! j' = Some r' ->
        row_key r' <> Some k).
Proof.
  revert j. induction rows as [| r0 rows IH]; intros j; simpl.
  - split; [done |]. by intros [(r & Hr & _) _].
  - destruct (last_key k rows) as [j0 |] eqn:Hlast.
    + split.
      * intros [= <-]. destruct (proj1 (IH j0) eq_refl) as [Hat Hafter].
        split; [done |]. intros [| j'] r' Hlt Hj'; [lia |].
        apply (Hafter j' r'); [lia | done].
      * intros [(r & Hr & Hk) Hafter]. destruct j as [| j].
        -- exfalso. destruct (proj1 (IH j0) eq_refl) as [(r1 & Hr1 & Hk1) _].
           apply (Hafter (S j0) r1); [lia | done | done].
        -- assert (Some j0 = Some j) as [= ->]; [| done].
           apply IH. split; [by exists r |].
           intros j' r' Hlt Hj'. apply (Hafter (S j') r'); [lia | done].
    + pose proof (proj1 (last_key_None k rows) Hlast) as Hno.
      case_bool_decide as Hkey.
      * split.
        -- intros [= <-]. split; [by exists r0 |].
           intros [| j'] r' Hlt Hj'; [lia |]. by apply (Hno j' r').
        -- intros [(r & Hr & Hk) _]. destruct j as [| j]; [done |].
           by destruct (Hno j r).
      * split; [done |]. intros [(r & Hr & Hk) _]. destruct j as [| j].
        -- simpl in Hr. injection Hr as <-. done.
        -- by destruct (Hno j r).
Qed.

Lemma last_key_trim (k : string) (rows : list (list jsval)) :
  last_key k (List.map trim_row rows) = last_key k rows.
Proof.
  induction rows as [| r rows IH]; simpl; [done |].
  by rewrite IH, row_key_trim.
Qed.

Lemma last_key_drop_trailing (k : string) (rows : list (list jsval)) :
  last_key k (drop_trailing is_nil rows) = last_key k rows.
Proof.
  induction rows as [| r rows IH]; simpl; [done |].
  destruct (drop_trailing is_nil rows) as [| x t] eqn:Hdt.
  - rewrite <- IH. simpl. by destruct r as [| c r].
  - by rewrite <- IH.
Qed.

Lemma idToRow_from_lookup (rows : list (list jsval)) (i : nat)
    (m : gmap string nat) (k : string) :
  idToRow_from rows i m !! k
  = match last_key k rows with
    | Some j => Some (i + j + 2)%nat
    | None => m !! k
    end.
Proof.
  revert i m. induction rows as [| r rows IH]; intros i m; simpl; [done |].
  rewrite IH. destruct (last_key k rows) as [j |].
  - f_equal. lia.
  - destruct r as [| c r]; simpl.
    + done.
    + destruct (truthy c).
      * case_bool_decide as Hkey.
        -- injection Hkey as <-. rewrite lookup_insert_eq. f_equal. lia.
        -- rewrite lookup_insert_ne; [done | congruence].
      * by try case_bool_decide.
Qed.

Lemma idToRow_of_lookup (s : list (list jsval)) (k : string) :
  idToRow_of s !! k = (fun j => (j + 2)%nat) <$> last_key k (drop 1 s).
Proof.
  unfold idToRow_of, values_get.
  replace (default [] _)
    with (drop_trailing is_nil (List.map trim_row (drop (2 - 1) s)))
    by (by destruct (drop_trailing _ _)).
  rewrite idToRow_from_lookup, last_key_drop_trailing, last_key_trim.
  simpl. destruct (last_key k (drop 1 s)); [done |]. apply lookup_empty.
Qed.

(** The mapping sends a [task_id] to the number of the last row, from row 2
    on, whose first cell reads as it. *)
Lemma idToRow_of_Some (s : list (list jsval)) (k : string) (n : nat) :
  idToRow_of s !! k = Some n <->
  exists j,
    n = S j /\ (1 <= j)%nat
    /\ (exists r, s !! j = Some r /\ row_key r = Some k)
    /\ (forall j' r', (j < j')%nat -> s !! j' = Some r' ->
          row_key r' <> Some k).
Proof.
  rewrite idToRow_of_lookup. split.
  - destruct (last_key k (drop 1 s)) as [j |] eqn:Hlast; [| done].
    intros [= <-]. apply last_key_Some in Hlast as [(r & Hr & Hk) Hafter].
    rewrite lookup_drop in Hr.
    exists (1 + j)%nat. split; [lia |]. split; [lia |]. split; [by exists r |].
    intros j' r' Hlt Hj'. apply (Hafter (j' - 1)%nat r'); [lia |].
    rewrite lookup_drop. by replace (1 + (j' - 1))%nat with j' by lia.
  - intros (j & -> & Hj & (r & Hr & Hk) & Hafter).
    assert (last_key k (drop 1 s) = Some (j - 1)%nat) as ->.
    { apply last_key_Some. split.
      - exists r. rewrite lookup_drop.
        by replace (1 + (j - 1))%nat with j by lia.
      - intros j' r' Hlt Hj'. rewrite lookup_drop in Hj'.
        apply (Hafter (1 + j')%nat r'); [lia | done]. }
    simpl. f_equal. lia.
Qed.

Lemma idToRow_of_None (s : list (list jsval)) (k : string) :
  idToRow_of s !! k = None <->
  forall j r, (1 <= j)%nat -> s !! j = Some r -> row_key r <> Some k.
Proof.
  rewrite idToRow_of_lookup, fmap_None, last_key_None. split.
  - intros Hno j r Hj Hr. apply (Hno (j - 1)%nat r).
    rewrite lookup_drop. by replace (1 + (j - 1))%nat with j by lia.
  - intros Hno j r Hr. rewrite lookup_drop in Hr.
    apply (Hno (1 + j)%nat r); [lia | done].
Qed.

Lemma target_Some (s : list (list jsval)) (r : record) (n : nat) :
  target (idToRow_of s) r = Some n <-> idToRow_of s !! task_id r = Some n.
Proof.
  unfold target. destruct (idToRow_of s !! task_id r) as [[| n'] |] eqn:Hm;
    [| done | done].
  apply idToRow_of_Some in Hm as (j & [=] & _).
Qed.

Lemma target_None (s : list (list jsval)) (r : record) :
  target (idToRow_of s) r = None <-> idToRow_of s !! task_id r = None.
Proof.
  unfold target. destruct (idToRow_of s !! task_id r) as [[| n'] |] eqn:Hm;
    [| done | done].
  apply idToRow_of_Some in Hm as (j & [=] & _).
Qed.

(** ** Sheet Reconciler: scheduling and writing *)

Lemma updates_of_cons (m : gmap string nat) (r : record)
    (records : list record) :
  updates_of m (r :: records)
  = match target m r with
    | Some n => (n, rowFromRecord r) :: updates_of m records
    | None => updates_of m records
    end.
Proof. unfold updates_of. simpl. by destruct (target m r). Qed.

Lemma appends_of_cons (m : gmap string nat) (r : record)
    (records : list record) :
  appends_of m (r :: records)
  = match target m r with
    | Some _ => appends_of m records
    | None => rowFromRecord r :: appends_of m records
    end.
Proof.
  unfold appends_of, appended. rewrite filter_cons.
  destruct (target m r); [by rewrite decide_False | by rewrite decide_True].
Qed.

Lemma schedule_from (m : gmap string nat) (records : list record)
    (updates : list (nat * list jsval)) (appends : list (list jsval)) :
  fold_left (schedule_step m) records (updates, appends)
  = ((updates ++ updates_of m records)%list,
     (appends ++ appends_of m records)%list).
Proof.
  revert updates appends.
  induction records as [| r records IH]; intros updates appends.
  - simpl. by rewrite !app_nil_r.
  - change (fold_left (schedule_step m) (r :: records) (updates, appends))
      with (fold_left (schedule_step m) records
              (schedule_step m (updates, appends) r)).
    rewrite updates_of_cons, appends_of_cons.
    unfold schedule_step, target.
    destruct (m !! task_id r) as [[| n] |]; rewrite IH;
      by rewrite <- ?app_assoc.
Qed.

(** The second loop leaves the overwrites and the appends of the batch,
    each in the order of the records. *)
Lemma schedule_spec (m : gmap string nat) (records : list record) :
  schedule m records = (updates_of m records, appends_of m records).
Proof. unfold schedule. by rewrite schedule_from. Qed.

Lemma values_append_nil (s : list (list jsval)) : values_append [] s = s.
Proof. unfold values_append. simpl. apply take_drop. Qed.

(** [upsertByTaskId] writes the overwrites of the batch, then inserts its
    appends. *)
Lemma upsertByTaskId_unfold (s : list (list jsval)) (records : list record) :
  upsertByTaskId s records
  = (values_append (appends_of (idToRow_of s) records)
       (batchUpdate (updates_of (idToRow_of s) records) s),
     (length (updates_of (idToRow_of s) records),
      length (appends_of (idToRow_of s) records))).
Proof.
  unfold upsertByTaskId. rewrite schedule_spec.
  destruct (updates_of (idToRow_of s) records) as [| u us];
    destruct (appends_of (idToRow_of s) records) as [| a aps];
    simpl; by rewrite ?values_append_nil.
Qed.

Lemma length_rowFromRecord (r : record) : length (rowFromRecord r) = 7%nat.
Proof. reflexivity. Qed.

Lemma overwrite_overwrite (v w old : list jsval) :
  length v = length w -> overwrite v (overwrite w old) = overwrite v old.
Proof.
  intros Hlen. unfold overwrite. f_equal. rewrite Hlen. apply drop_app_length.
Qed.

Lemma overwrite_take (v old : list jsval) :
  take (length v) (overwrite v old) = v.
Proof. unfold overwrite. apply take_app_length. Qed.

Lemma overwrite_same (v old : list jsval) :
  take (length v) old = v -> overwrite v old = old.
Proof.
  intros Hv. unfold overwrite. rewrite <- Hv at 1. apply take_drop.
Qed.

Lemma values_update_lookup (n : nat) (vals : list jsval)
    (s : list (list jsval)) (j : nat) :
  (1 <= n)%nat -> (n - 1 < length s)%nat ->
  values_update n vals s !! j
  = if decide (n = S j) then overwrite vals <$> s !! j else s !! j.
Proof.
  intros Hn Hlt. unfold values_update.
  replace (n - 1 <? length s)%nat with true by (symmetry; by apply Nat.ltb_lt).
  destruct (decide (n = S j)) as [-> | Hne].
  - replace (S j - 1)%nat with j by lia. apply list_lookup_alter_eq.
  - apply list_lookup_alter_ne. lia.
Qed.

Lemma values_update_length (n : nat) (vals : list jsval)
    (s : list (list jsval)) :
  (n - 1 < length s)%nat -> length (values_update n vals s) = length s.
Proof.
  intros Hlt. unfold values_update.
  replace (n - 1 <? length s)%nat with true by (symmetry; by apply Nat.ltb_lt).
  apply length_alter.
Qed.

Lemma last_write_elem (n : nat) (updates : list (nat * list jsval))
    (w : list jsval) :
  last_write n updates = Some w ->
  exists u, u ∈ updates /\ fst u = n /\ snd u = w.
Proof.
  induction updates as [| u updates IH]; [done |]. simpl.
  destruct (last_write n updates) as [w' |].
  - intros [= ->]. destruct IH as (u' & Hu' & Hn & Hw); [done |].
    exists u'. split; [by apply elem_of_cons; right | done].
  - case_bool_decide; [| done]. intros [= <-].
    exists u. split; [by apply elem_of_cons; left | done].
Qed.

(** A batch of writes of seven cells to rows of the sheet: every row ends
    up overwritten by the last write that targets it, and no row comes or
    goes. *)
Lemma batchUpdate_lookup (updates : list (nat * list jsval)) :
  forall (s : list (list jsval)),
    (forall u, u ∈ updates ->
       (1 <= fst u)%nat /\ (fst u - 1 < length s)%nat
       /\ length (snd u) = 7%nat) ->
    length (batchUpdate updates s) = length s
    /\ forall j,
         batchUpdate updates s !! j
         = (fun old =>
              match last_write (S j) updates with
              | Some v => overwrite v old
              | None => old
              end) <$> s !! j.
Proof.
  induction updates as [| [n v] updates IH]; intros s Hok; simpl.
  - split; [done |]. intros j. by destruct (s !! j).
  - destruct (Hok (n, v)) as (Hn & Hlt & Hlen); [by apply elem_of_cons; left |].
    simpl in *.
    destruct (IH (values_update n v s)) as [IHlen IHrows].
    { intros u Hu. rewrite values_update_length by done.
      apply Hok. by apply elem_of_cons; right. }
    split; [by rewrite IHlen, values_update_length |].
    intros j. rewrite IHrows, values_update_lookup by done.
    destruct (last_write (S j) updates) as [w |] eqn:Hlast.
    + destruct (decide (n = S j)) as [-> | Hne]; [| done].
      destruct (s !! j) as [old |]; [| done]. simpl. f_equal.
      apply overwrite_overwrite.
      destruct (last_write_elem _ _ _ Hlast) as (u & Hu & _ & Hw).
      rewrite <- Hw.
      destruct (Hok u) as (_ & _ & ->); [by apply elem_of_cons; right | done].
    + case_bool_decide as Heq; destruct (decide (n = S j)); try done.
      by destruct (s !! j).
Qed.

Lemma last_rec_Some (p : record -> bool) (records : list record) (r : record) :
  last_rec p records = Some r -> r ∈ records /\ p r = true.
Proof.
  induction records as [| r0 records IH]; simpl; [done |].
  destruct (last_rec p records) as [r' |].
  - intros [= ->]. destruct IH as [Hin Hp]; [done |].
    split; [by apply elem_of_cons; right | done].
  - destruct (p r0) eqn:Hp0; [| done]. intros [= <-].
    split; [by apply elem_of_cons; left | done].
Qed.

Lemma last_rec_None (p : record -> bool) (records : list record) :
  last_rec p records = None <-> forall r, r ∈ records -> p r = false.
Proof.
  induction records as [| r0 records IH]; simpl.
  - split; [| done]. intros _ r Hr. by apply elem_of_nil in Hr.
  - destruct (last_rec p records) as [r' |] eqn:Hlast.
    + split; [done |]. intros Hno.
      assert (Some r' = None) as [=]. apply IH. intros r Hr. apply Hno.
      by apply elem_of_cons; right.
    + destruct (p r0) eqn:Hp0.
      * split; [done |]. intros Hno.
        rewrite Hno in Hp0 by (by apply elem_of_cons; left). done.
      * split; [| done]. intros _ r [-> | Hr]%elem_of_cons; [done |].
        by apply (proj1 IH).
Qed.

Lemma last_rec_ext (p q : record -> bool) (records : list record) :
  (forall r, r ∈ records -> p r = q r) ->
  last_rec p records = last_rec q records.
Proof.
  induction records as [| r0 records IH]; simpl; intros Hpq; [done |].
  rewrite IH by (intros r Hr; apply Hpq; set_solver).
  by rewrite (Hpq r0) by set_solver.
Qed.

Lemma last_rec_filter (p : record -> bool) (q : record -> Prop)
    `{forall r, Decision (q r)} (records : list record) :
  (forall r, r ∈ records -> p r = true -> q r) ->
  last_rec p (filter q records) = last_rec p records.
Proof.
  induction records as [| r0 records IH]; simpl; intros Hpq; [done |].
  rewrite filter_cons. destruct (decide (q r0)) as [Hq | Hq]; simpl.
  - by rewrite IH by (intros r Hr; apply Hpq; set_solver).
  - rewrite IH by (intros r Hr; apply Hpq; set_solver).
    destruct (last_rec p records); [done |].
    destruct (p r0) eqn:Hp0; [| done].
    exfalso. apply Hq, Hpq; [set_solver | done].
Qed.

(** The record at a position after which none satisfies [p] is the last
    one that does. *)
Lemma last_rec_at (p : record -> bool) (records : list record) (i : nat)
    (r : record) :
  records !! i = Some r -> p r = true ->
  (forall i' r', (i < i')%nat -> records !! i' = Some r' -> p r' = false) ->
  last_rec p records = Some r.
Proof.
  revert i. induction records as [| r0 records IH]; intros i Hi Hp Hafter;
    [done |]. simpl.
  destruct i as [| i]; simpl in Hi.
  - injection Hi as ->.
    assert (last_rec p records = None) as ->.
    { apply last_rec_None. intros r' [i' Hi']%list_elem_of_lookup_1.
      apply (Hafter (S i') r'); [lia | done]. }
    by rewrite Hp.
  - rewrite (IH i); [done | done | done |].
    intros i' r' Hlt Hi'. apply (Hafter (S i') r'); [lia | done].
Qed.

(** The last write to row [n] among the overwrites of a batch carries the
    last record of the batch that targets row [n]. *)
Lemma last_write_updates_of (m : gmap string nat) (records : list record)
    (n : nat) :
  last_write n (updates_of m records)
  = rowFromRecord
    <$> last_rec (fun r => bool_decide (target m r = Some n)) records.
Proof.
  induction records as [| r records IH]; [done |].
  rewrite updates_of_cons. simpl last_rec.
  destruct (target m r) as [n' |] eqn:Ht; simpl.
  - rewrite IH. destruct (last_rec _ records); [done |]. simpl.
    case_bool_decide as H1; case_bool_decide as H2; try done; congruence.
  - rewrite IH. by destruct (last_rec _ records).
Qed.

Lemma elem_of_updates_of (m : gmap string nat) (records : list record)
    (u : nat * list jsval) :
  u ∈ updates_of m records <->
  exists r, r ∈ records /\ target m r = Some (fst u)
            /\ snd u = rowFromRecord r.
Proof.
  unfold updates_of. rewrite list_elem_of_omap. split.
  - intros (r & Hr & Hu). exists r. split; [done |].
    destruct (target m r) as [n |]; [| done]. by injection Hu as <-.
  - intros (r & Hr & Ht & Hv). exists r. split; [done |].
    rewrite Ht. simpl. destruct u. simpl in *. by subst.
Qed.

(** The overwrites scheduled from what was read of a sheet are writes of
    seven cells to rows the sheet has, from row 2 on. *)
Lemma updates_of_in_range (s : list (list jsval)) (records : list record)
    (u : nat * list jsval) :
  u ∈ updates_of (idToRow_of s) records ->
  (2 <= fst u)%nat /\ (fst u - 1 < length s)%nat /\ length (snd u) = 7%nat.
Proof.
  intros (r & _ & Ht & Hv)%elem_of_updates_of.
  apply target_Some, idToRow_of_Some in Ht
    as (j & Hn & Hj & (row & Hrow & _) & _).
  apply lookup_lt_Some in Hrow. rewrite Hn, Hv.
  split; [lia |]. split; [lia | reflexivity].
Qed.

(** The sheet after the overwrites of a batch, row by row. *)
Lemma batchUpdate_updates_of (s : list (list jsval)) (records : list record) :
  let su := batchUpdate (updates_of (idToRow_of s) records) s in
  length su = length s
  /\ forall j,
       su !! j
       = (fun old =>
            match last_rec (fun r =>
                    bool_decide (target (idToRow_of s) r = Some (S j)))
                    records with
            | Some r => overwrite (rowFromRecord r) old
            | None => old
            end) <$> s !! j.
Proof.
  destruct (batchUpdate_lookup (updates_of (idToRow_of s) records) s)
    as [Hlen Hrows].
  { intros u Hu. apply updates_of_in_range in Hu. lia. }
  split; [done |]. intros j. rewrite Hrows, last_write_updates_of.
  by destruct (last_rec _ records).
Qed.

(** ** Sheet Reconciler: inserting the appends *)

Lemma table_end_le (s : list (list jsval)) : (table_end s <= length s)%nat.
Proof. apply drop_trailing_length. Qed.

Lemma table_end_not_blank (s : list (list jsval)) (j : nat) (r : list jsval) :
  s !! j = Some r -> row_blank r = false -> (j < table_end s)%nat.
Proof. apply drop_trailing_keeps. Qed.

Lemma table_end_blank (s : list (list jsval)) (j : nat) (r : list jsval) :
  (table_end s <= j)%nat -> s !! j = Some r -> row_blank r = true.
Proof. apply drop_trailing_beyond. Qed.

(** The rows of a sheet after an insertion at the end of its table. *)
Lemma values_append_lookup (rows s : list (list jsval)) (j : nat) :
  values_append rows s !! j
  = if decide (j < table_end s)%nat then s !! j
    else if decide (j < table_end s + length rows)%nat
         then rows !! (j - table_end s)%nat
         else s !! (j - length rows)%nat.
Proof.
  unfold values_append. pose proof (table_end_le s) as Hle.
  destruct (decide (j < table_end s)%nat) as [Hlt | Hge].
  - rewrite lookup_app_l by (rewrite length_take_le; lia).
    by apply lookup_take_lt.
  - rewrite lookup_app_r by (rewrite length_take_le; lia).
    rewrite length_take_le by lia.
    destruct (decide (j < table_end s + length rows)%nat) as [Hlt | Hge'].
    + apply lookup_app_l. lia.
    + rewrite lookup_app_r by lia. rewrite lookup_drop. f_equal. lia.
Qed.

Lemma values_append_length (rows s : list (list jsval)) :
  length (values_append rows s) = (length s + length rows)%nat.
Proof.
  unfold values_append. pose proof (table_end_le s).
  rewrite !length_app, length_take_le, length_drop by lia. lia.
Qed.

(** A row that no record of the batch targets stays where it is through the
    overwrites. *)
Lemma batchUpdate_row_kept (s : list (list jsval)) (records : list record)
    (j : nat) (old : list jsval) :
  s !! j = Some old ->
  (forall r, r ∈ records -> target (idToRow_of s) r <> Some (S j)) ->
  batchUpdate (updates_of (idToRow_of s) records) s !! j = Some old.
Proof.
  intros Hold Hfree.
  destruct (batchUpdate_updates_of s records) as [_ Hrows].
  rewrite Hrows, Hold. simpl.
  assert (last_rec (fun r => bool_decide (target (idToRow_of s) r = Some (S j)))
            records = None) as ->; [| done].
  apply last_rec_None. intros r Hr. apply bool_decide_eq_false. by apply Hfree.
Qed.

(** A record targets row [S j] only if the first cell of that row reads as
    its [task_id], and no later row does. *)
Lemma target_row (s : list (list jsval)) (r : record) (j : nat) :
  target (idToRow_of s) r = Some (S j) ->
  (1 <= j)%nat
  /\ (exists row, s !! j = Some row /\ row_key row = Some (task_id r))
  /\ (forall j' row', (j < j')%nat -> s !! j' = Some row' ->
        row_key row' <> Some (task_id r)).
Proof.
  intros (j0 & [= <-] & Hrest)%target_Some%idToRow_of_Some. done.
Qed.

(** A row that no record of the batch targets is in the sheet that
    [upsertByTaskId] leaves: at its place if it holds data in columns A to
    G, at its place or further down if it does not. *)
Lemma upsert_row_kept (s : list (list jsval)) (records : list record)
    (j : nat) (old : list jsval) :
  s !! j = Some old ->
  (forall r, r ∈ records -> target (idToRow_of s) r <> Some (S j)) ->
  exists j',
    fst (upsertByTaskId s records) !! j' = Some old
    /\ (j <= j')%nat /\ (row_blank old = false -> j' = j).
Proof.
  intros Hold Hfree. rewrite upsertByTaskId_unfold. simpl.
  pose proof (batchUpdate_row_kept s records j old Hold Hfree) as Hkept.
  set (su := batchUpdate (updates_of (idToRow_of s) records) s) in *.
  set (rows := appends_of (idToRow_of s) records).
  destruct (decide (j < table_end su)%nat) as [Hlt | Hge].
  - exists j. rewrite values_append_lookup, decide_True by done. done.
  - exists (j + length rows)%nat. rewrite values_append_lookup.
    rewrite decide_False by lia. rewrite decide_False by lia.
    replace (j + length rows - length rows)%nat with j by lia.
    split; [done |]. split; [lia |]. intros Hdata.
    pose proof (table_end_not_blank su j old Hkept Hdata). lia.
Qed.

(** C9: [upsertByTaskId] deletes no row: the sheet it leaves has the rows
    it found plus one per append.  Row 1, and every row whose first cell
    does not read as the [task_id] of an incoming record, is still there
    unchanged, at its place if it holds data in columns A to G (an empty
    row may move down past the inserted rows).  Every overwrite goes to a
    row, from row 2 on, whose first cell reads as the [task_id] of the
    record written. *)
Theorem upsert_frame (s : list (list jsval)) (records : list record) :
  length (fst (upsertByTaskId s records))
  = (length s + snd (snd (upsertByTaskId s records)))%nat
  /\ (forall j row,
        s !! j = Some row ->
        j = 0%nat
        \/ (forall r, r ∈ records -> row_key row <> Some (task_id r)) ->
        exists j',
          fst (upsertByTaskId s records) !! j' = Some row
          /\ (j <= j')%nat /\ (row_blank row = false -> j' = j))
  /\ (forall u,
        u ∈ fst (schedule (idToRow_of s) records) ->
        exists r row,
          r ∈ records /\ snd u = rowFromRecord r
          /\ (2 <= fst u)%nat
          /\ s !! (fst u - 1)%nat = Some row
          /\ row_key row = Some (task_id r)).
Proof.
  split; [| split].
  - rewrite upsertByTaskId_unfold. simpl.
    rewrite values_append_length.
    destruct (batchUpdate_updates_of s records) as [-> _]. done.
  - intros j row Hrow Hother. apply upsert_row_kept; [done |].
    intros r Hr Ht. apply target_row in Ht as (Hj & (row' & Hrow' & Hk) & _).
    destruct Hother as [-> | Hother]; [lia |].
    apply (Hother r Hr). congruence.
  - intros u Hu. rewrite schedule_spec in Hu. simpl in Hu.
    apply elem_of_updates_of in Hu as (r & Hr & Ht & Hv).
    destruct (fst u) as [| j] eqn:Hn.
    { apply target_Some, idToRow_of_Some in Ht as (j & [=] & _). }
    apply target_row in Ht as (Hj & (row & Hrow & Hk) & _).
    exists r, row. replace (S j - 1)%nat with j by lia.
    repeat split; [done | done | lia | done | done].
Qed.



(** C2, as the code has it: when rows from row 2 on carry the same
    [task_id], the mapping sends it to the last of them; every incoming
    record with that [task_id] is scheduled to overwrite that last row, and
    a row that carries it further up is left as it was. *)
Theorem upsert_last_duplicate (s : list (list jsval)) (records : list record)
    (k : string) (j : nat) (row : list jsval) :
  (1 <= j)%nat -> s !! j = Some row -> row_key row = Some k ->
  exists l,
    (j <= l)%nat
    /\ idToRow_of s !! k = Some (S l)
    /\ (exists last, s !! l = Some last /\ row_key last = Some k)
    /\ (forall j' row', (l < j')%nat -> s !! j' = Some row' ->
          row_key row' <> Some k)
    /\ (forall r, r ∈ records -> task_id r = k ->
          (S l, rowFromRecord r) ∈ fst (schedule (idToRow_of s) records))
    /\ ((j < l)%nat -> fst (upsertByTaskId s records) !! j = Some row).
Proof.
  intros Hj Hrow Hk.
  destruct (idToRow_of s !! k) as [n |] eqn:Hm.
  2: { exfalso. by apply (proj1 (idToRow_of_None s k) Hm j row). }
  pose proof Hm as Hm'.
  apply idToRow_of_Some in Hm' as (l & -> & Hl & Hlast & Hafter).
  exists l.
  assert (Hjl : (j <= l)%nat).
  { destruct (decide (j <= l)%nat) as [| Hgt]; [done |].
    exfalso. apply (Hafter j row); [lia | done | done]. }
  repeat split; try done.
  - intros r Hr Hid. rewrite schedule_spec. simpl.
    apply elem_of_updates_of. exists r. simpl.
    repeat split; [done |]. apply target_Some. by rewrite Hid.
  - intros Hlt.
    destruct (upsert_row_kept s records j row Hrow) as (j' & Hj' & _ & Hsame).
    + intros r Hr Ht.
      apply target_row in Ht as (_ & (row' & Hrow' & Hk') & Hno).
      destruct Hlast as (last & Hlast & Hklast).
      apply (Hno l last); [lia | done |]. congruence.
    + by rewrite <- (Hsame (row_key_not_blank row k Hk)).
Qed.

(** The theorem on the sheet whose rows 2 and 3 both carry T1, at row 2. *)
Lemma upsert_last_duplicate_witness :
  exists l,
    (1 <= l)%nat
    /\ idToRow_of duplicated_sheet !! "T1" = Some (S l)
    /\ (exists last, duplicated_sheet !! l = Some last
                     /\ row_key last = Some "T1")
    /\ (forall j' row', (l < j')%nat -> duplicated_sheet !! j' = Some row' ->
          row_key row' <> Some "T1")
    /\ (forall r, r ∈ [sample_record "T1" "new"] -> task_id r = "T1" ->
          (S l, rowFromRecord r)
          ∈ fst (schedule (idToRow_of duplicated_sheet)
                   [sample_record "T1" "new"]))
    /\ ((1 < l)%nat ->
        fst (upsertByTaskId duplicated_sheet [sample_record "T1" "new"])
        !! 1%nat = Some [VStr "T1"; VStr "first"]).
Proof.
  apply (upsert_last_duplicate duplicated_sheet [sample_record "T1" "new"]
           "T1" 1 [VStr "T1"; VStr "first"]).
  - lia.
  - reflexivity.
  - reflexivity.
Defined.

(** C2 as stated fails: on the sheet whose rows 2 and 3 both carry T1 the
    mapping sends T1 to row 3, not to row 2 where it first occurs; a record
    for T1 leaves row 2 as it was and overwrites row 3. *)
Lemma upsert_first_duplicate_counterexample :
  idToRow_of duplicated_sheet !! "T1" = Some 3%nat
  /\ idToRow_of duplicated_sheet !! "T1" <> Some 2%nat
  /\ fst (upsertByTaskId duplicated_sheet [sample_record "T1" "new"])
     = [List.map VStr HEADERS;
        [VStr "T1"; VStr "first"];
        rowFromRecord (sample_record "T1" "new")].
Proof.
  assert (H3 : idToRow_of duplicated_sheet !! "T1" = Some 3%nat)
    by (vm_compute; reflexivity).
  split; [done |]. split; [by rewrite H3 |].
  vm_compute. reflexivity.
Qed.

(** ** Sheet Reconciler: running it twice *)

Lemma row_key_rowFromRecord (r : record) :
  task_id r <> "" -> row_key (rowFromRecord r) = Some (task_id r).
Proof.
  intros Hid. unfold rowFromRecord, row_key. simpl.
  destruct (String.eqb_spec (task_id r) ""); [done | done].
Qed.

Lemma row_key_overwrite (r : record) (old : list jsval) :
  task_id r <> "" ->
  row_key (overwrite (rowFromRecord r) old) = Some (task_id r).
Proof. intros Hid. by rewrite <- (row_key_rowFromRecord r Hid). Qed.

Lemma take_rowFromRecord (r : record) :
  take 7 (rowFromRecord r) = rowFromRecord r.
Proof. reflexivity. Qed.

Lemma length_updates_appends (m : gmap string nat) (records : list record) :
  (length (updates_of m records) + length (appends_of m records))%nat
  = length records.
Proof.
  induction records as [| r records IH]; [done |].
  rewrite updates_of_cons, appends_of_cons.
  destruct (target m r); simpl; lia.
Qed.

Lemma appends_of_nil (m : gmap string nat) (records : list record) :
  (forall r, r ∈ records -> is_Some (target m r)) ->
  appends_of m records = [].
Proof.
  induction records as [| r records IH]; intros Hall; [done |].
  rewrite appends_of_cons. destruct (Hall r) as [n ->]; [by left |].
  apply IH. intros r' Hr'. apply Hall. by right.
Qed.

(** The records that target the row a [task_id] is mapped to are the
    records with that [task_id]. *)
Lemma last_rec_target (s : list (list jsval)) (records : list record)
    (k : string) (j : nat) :
  idToRow_of s !! k = Some (S j) ->
  last_rec (fun r => bool_decide (target (idToRow_of s) r = Some (S j)))
    records
  = last_rec (fun r => bool_decide (task_id r = k)) records.
Proof.
  intros Hk. apply last_rec_ext. intros r _. apply bool_decide_ext. split.
  - intros (_ & (row & Hrow & Hkey) & _)%target_row.
    apply idToRow_of_Some in Hk
      as (j0 & [= <-] & _ & (row' & Hrow' & Hkey') & _).
    congruence.
  - intros <-. by apply target_Some.
Qed.

Lemma header_present_row (s : list (list jsval)) :
  header_present s = true ->
  exists h, s !! 0%nat = Some h /\ row_blank h = false.
Proof.
  destruct s as [| h rest]; [done |]. simpl. intros Hh%negb_true_iff.
  by exists h.
Qed.

Section Twice.

Variable s : list (list jsval).
Variable records : list record.
Hypothesis header : header_present s = true.
Hypothesis ids : forall r, r ∈ records -> task_id r <> "".

Local Notation su := (after_overwrites s records).
Local Notation s1 := (after_upsert s records).

Lemma first_run : fst (upsertByTaskId s records) = s1.
Proof. by rewrite upsertByTaskId_unfold. Qed.

(** The overwrites leave every row with the key it had. *)
Lemma overwritten_row (j : nat) (old : list jsval) :
  su !! j = Some old ->
  exists old0,
    s !! j = Some old0
    /\ row_key old0 = row_key old
    /\ old
       = match last_rec (fun r =>
                 bool_decide (target (idToRow_of s) r = Some (S j)))
                 records with
         | Some r => overwrite (rowFromRecord r) old0
         | None => old0
         end.
Proof.
  destruct (batchUpdate_updates_of s records) as [_ Hrows].
  unfold su. rewrite Hrows.
  destruct (s !! j) as [old0 |] eqn:Hold0; [| done]. simpl. intros [= <-].
  exists old0. split; [done |]. split; [| done].
  destruct (last_rec _ records) as [r |] eqn:Hlast; [| done].
  apply last_rec_Some in Hlast as [Hr Ht]. apply bool_decide_eq_true in Ht.
  apply target_row in Ht as (_ & (row & Hrow & Hk) & _).
  rewrite row_key_overwrite by by apply ids.
  congruence.
Qed.

Lemma overwritten_key (j : nat) (old0 : list jsval) :
  s !! j = Some old0 ->
  exists old, su !! j = Some old /\ row_key old = row_key old0.
Proof.
  intros Hold0.
  destruct (batchUpdate_updates_of s records) as [_ Hrows].
  destruct (su !! j) as [old |] eqn:Hold.
  - exists old. split; [done |].
    destruct (overwritten_row j old Hold) as (old0' & Hold0' & Hk & _).
    congruence.
  - unfold su in Hold. rewrite Hrows, Hold0 in Hold. done.
Qed.

Lemma table_end_positive : (1 <= table_end su)%nat.
Proof.
  destruct (header_present_row s header) as (h & Hh & Hdata).
  destruct (overwritten_key 0 h Hh) as (h' & Hh' & Hk).
  destruct (overwritten_row 0 h' Hh') as (h0 & Hh0 & _ & Heq).
  assert (h0 = h) as -> by congruence.
  assert (last_rec (fun r => bool_decide
                      (target (idToRow_of s) r = Some 1%nat))
            records = None) as Hnone.
  { apply last_rec_None. intros r _. apply bool_decide_eq_false.
    intros Ht. apply target_row in Ht as [Hle _]. lia. }
  rewrite Hnone in Heq. subst h'.
  pose proof (table_end_not_blank su 0 h Hh' Hdata). lia.
Qed.

(** The three stretches of the sheet after the first run. *)
Lemma first_run_table (j : nat) :
  (j < table_end su)%nat -> s1 !! j = su !! j.
Proof.
  intros Hlt. unfold s1. by rewrite values_append_lookup, decide_True.
Qed.

Lemma first_run_appended (i : nat) :
  (i < length (appended (idToRow_of s) records))%nat ->
  s1 !! (table_end su + i)%nat
  = rowFromRecord <$> appended (idToRow_of s) records !! i.
Proof.
  intros Hlt. unfold s1. rewrite values_append_lookup.
  rewrite decide_False by lia.
  assert (Hlen : length (appends_of (idToRow_of s) records)
                 = length (appended (idToRow_of s) records))
    by apply length_fmap.
  rewrite decide_True by lia.
  replace (table_end su + i - table_end su)%nat with i by lia.
  unfold appends_of. apply list_lookup_fmap.
Qed.

Lemma first_run_cases (j : nat) (old : list jsval) :
  s1 !! j = Some old ->
  ((j < table_end su)%nat /\ su !! j = Some old)
  \/ (exists i r,
        j = (table_end su + i)%nat
        /\ appended (idToRow_of s) records !! i = Some r
        /\ old = rowFromRecord r)
  \/ row_blank old = true.
Proof.
  unfold s1. rewrite values_append_lookup.
  destruct (decide (j < table_end su)%nat) as [Hlt | Hge]; [by left |].
  destruct (decide _) as [Hlt | Hge'].
  - intros Hold. right. left. unfold appends_of in Hold.
    rewrite list_lookup_fmap in Hold.
    destruct (appended _ _ !! _) as [r |] eqn:Hr; [| done].
    injection Hold as <-.
    exists (j - table_end su)%nat, r. split; [lia | done].
  - intros Hold. right. right.
    apply (table_end_blank su (j - length (appends_of (idToRow_of s) records))
             old); [lia | done].
Qed.

(** Every record of the batch is in the mapping read after the first
    run. *)
Lemma second_run_finds (r : record) :
  r ∈ records -> is_Some (idToRow_of s1 !! task_id r).
Proof.
  intros Hr. pose proof table_end_positive as Hpos.
  destruct (idToRow_of s1 !! task_id r) as [n |] eqn:Hm1; [done |]. exfalso.
  pose proof (proj1 (idToRow_of_None s1 (task_id r)) Hm1) as Hno.
  destruct (target (idToRow_of s) r) as [n |] eqn:Ht.
  - destruct n as [| j]; [by apply target_Some, idToRow_of_Some in Ht
                             as (? & [=] & _) |].
    apply target_row in Ht as (Hj & (old0 & Hold0 & Hk0) & _).
    destruct (overwritten_key j old0 Hold0) as (old & Hold & Hk).
    pose proof (table_end_not_blank su j old Hold
                  (row_key_not_blank old _ (eq_trans Hk Hk0))) as Hlt.
    apply (Hno j old); [done | by rewrite first_run_table | congruence].
  - assert (Hin : r ∈ appended (idToRow_of s) records)
      by (by apply list_elem_of_filter).
    apply list_elem_of_lookup_1 in Hin as [i Hi].
    apply (Hno (table_end su + i)%nat (rowFromRecord r)); [lia | |].
    + rewrite first_run_appended by (by eapply lookup_lt_Some).
      by rewrite Hi.
    + apply row_key_rowFromRecord. by apply ids.
Qed.

(** After the first run, the row a [task_id] is mapped to holds, in its
    cells A to G, the last record of the batch with that [task_id]. *)
Lemma second_run_row (j : nat) (old : list jsval) (k : string) (r : record) :
  s1 !! j = Some old ->
  idToRow_of s1 !! k = Some (S j) ->
  last_rec (fun r => bool_decide (task_id r = k)) records = Some r ->
  take 7 old = rowFromRecord r.
Proof.
  intros Hold Hm1 Hlast.
  apply idToRow_of_Some in Hm1
    as (j0 & [= <-] & Hj & (old' & Hold' & Hk) & Hafter).
  assert (old' = old) as -> by congruence.
  destruct (first_run_cases j old Hold)
    as [[Hlt Hsu] | [(i & r' & -> & Hi & ->) | Hblank]].
  - destruct (overwritten_row j old Hsu) as (old0 & Hold0 & Hk0 & Heq).
    assert (Hm : idToRow_of s !! k = Some (S j)).
    { apply idToRow_of_Some. exists j. repeat split; [done | |].
      - exists old0. split; [done | congruence].
      - intros j' row' Hlt' Hrow' Hk'.
        destruct (overwritten_key j' row' Hrow') as (row1 & Hrow1 & Hk1).
        pose proof (table_end_not_blank su j' row1 Hrow1
                      (row_key_not_blank row1 k (eq_trans Hk1 Hk'))) as Hin.
        apply (Hafter j' row1); [done | by rewrite first_run_table |].
        congruence. }
    rewrite (last_rec_target s records k j Hm), Hlast in Heq. subst old.
    exact (overwrite_take (rowFromRecord r) old0).
  - assert (Hr' : r' ∈ appended (idToRow_of s) records)
      by (by eapply list_elem_of_lookup_2).
    apply list_elem_of_filter in Hr' as [Hnew Hr'].
    rewrite row_key_rowFromRecord in Hk by by apply ids.
    injection Hk as Hk.
    assert (Hlast' : last_rec (fun r => bool_decide (task_id r = k)) records
                     = Some r').
    { rewrite <- (last_rec_filter _
                    (fun r => target (idToRow_of s) r = None)).
      - apply (last_rec_at _ _ i); [done | by apply bool_decide_eq_true |].
        intros i' r'' Hlt' Hi'. apply bool_decide_eq_false. intros Hk''.
        fold (appended (idToRow_of s) records) in Hi'.
        apply (Hafter (table_end su + i')%nat (rowFromRecord r'')); [lia | |].
        + rewrite first_run_appended by (by eapply lookup_lt_Some).
          by rewrite Hi'.
        + rewrite row_key_rowFromRecord; [congruence |].
          apply ids. eapply list_elem_of_filter, list_elem_of_lookup_2, Hi'.
      - intros r0 _ Hk0%bool_decide_eq_true.
        unfold target in *. by rewrite Hk0, <- Hk. }
    assert (r' = r) as -> by congruence.
    apply take_rowFromRecord.
  - rewrite (row_blank_no_key old Hblank) in Hk. discriminate.
Qed.

(** The overwrites of the second run change nothing. *)
Lemma second_run_unchanged :
  batchUpdate (updates_of (idToRow_of s1) records) s1 = s1.
Proof.
  apply list_eq. intros j.
  destruct (batchUpdate_updates_of s1 records) as [_ Hrows].
  rewrite Hrows. destruct (s1 !! j) as [old |] eqn:Hold; [| done].
  simpl. f_equal.
  destruct (last_rec _ records) as [r |] eqn:Hlast; [| done].
  pose proof (last_rec_Some _ _ _ Hlast) as [Hr Ht].
  apply bool_decide_eq_true, target_Some in Ht.
  rewrite (last_rec_target s1 records (task_id r) j Ht) in Hlast.
  apply overwrite_same.
  exact (second_run_row j old (task_id r) r Hold Ht Hlast).
Qed.

Lemma second_run_targets (r : record) :
  r ∈ records -> is_Some (target (idToRow_of s1) r).
Proof.
  intros Hr. destruct (second_run_finds r Hr) as [n Hn].
  exists n. by apply target_Some.
Qed.

Lemma second_run_no_appends : appends_of (idToRow_of s1) records = [].
Proof. apply appends_of_nil, second_run_targets. Qed.

(** The second run returns the sheet it found, having scheduled every
    record as an overwrite. *)
Lemma second_run : upsertByTaskId s1 records = (s1, (length records, 0%nat)).
Proof.
  rewrite upsertByTaskId_unfold, second_run_unchanged.
  pose proof (length_updates_appends (idToRow_of s1) records) as Hlen.
  rewrite second_run_no_appends in *. simpl in Hlen.
  rewrite values_append_nil. repeat f_equal. lia.
Qed.

(** When the records that share a [task_id] agree on their cells, each
    overwrite of the second run writes what its row already holds. *)
Lemma second_run_overwrite (u : nat * list jsval) :
  consistent records ->
  u ∈ updates_of (idToRow_of s1) records ->
  take 7 <$> s1 !! (fst u - 1)%nat = Some (snd u).
Proof.
  intros Hcons (r & Hr & Ht & ->)%elem_of_updates_of.
  destruct (fst u) as [| j];
    [by apply target_Some, idToRow_of_Some in Ht as (? & [=] & _) |].
  apply target_Some in Ht.
  pose proof Ht as (j0 & [= <-] & _ & (old & Hold & _) & _)%idToRow_of_Some.
  replace (S j - 1)%nat with j by lia. rewrite Hold. simpl. f_equal.
  destruct (last_rec (fun r0 => bool_decide (task_id r0 = task_id r)) records)
    as [r' |] eqn:Hlast.
  - rewrite (second_run_row j old (task_id r) r' Hold Ht Hlast).
    apply last_rec_Some in Hlast as [Hr' Hid%bool_decide_eq_true].
    by apply Hcons.
  - rewrite last_rec_None in Hlast. specialize (Hlast r Hr).
    by apply bool_decide_eq_false in Hlast.
Qed.

End Twice.

(** C1, as the code has it: on a store whose header row is in place, with
    a record set that [normalize] returned, a second [upsertByTaskId] with
    the same records finds the [task_id] of every record in the mapping,
    schedules no append, and leaves every cell of the store as the first
    run left it, its overwrites being written in order.  When the records
    that share a [task_id] agree on their cells, each overwrite of the
    second run writes what its row already holds. *)
Theorem upsert_twice `{Host} (field : string) (tasks : list jsval)
    (records : list record) (s : list (list jsval)) :
  normalize field tasks = Return records ->
  header_present s = true ->
  let s1 := fst (upsertByTaskId s records) in
  (forall r, r ∈ records -> is_Some (idToRow_of s1 !! task_id r))
  /\ snd (schedule (idToRow_of s1) records) = []
  /\ upsertByTaskId s1 records = (s1, (length records, 0%nat))
  /\ (consistent records ->
      forall u, u ∈ fst (schedule (idToRow_of s1) records) ->
        take 7 <$> s1 !! (fst u - 1)%nat = Some (snd u)).
Proof.
  intros Hnorm Hheader.
  assert (Hids : forall r, r ∈ records -> task_id r <> "").
  { intros r Hr. by destruct (normalize_Return _ _ _ Hnorm r Hr). }
  simpl. rewrite first_run, schedule_spec. simpl.
  split; [| split; [| split]].
  - intros r Hr. by apply second_run_finds.
  - by apply second_run_no_appends.
  - by apply second_run.
  - intros Hcons u Hu. by apply second_run_overwrite.
Qed.

(** The theorem on the scenario of the specification, sent to a sheet that
    holds only the header. *)
Lemma upsert_twice_witness :
  let s1 := fst (upsertByTaskId header_only [scenario_record]) in
  (forall r, r ∈ [scenario_record] -> is_Some (idToRow_of s1 !! task_id r))
  /\ snd (schedule (idToRow_of s1) [scenario_record]) = []
  /\ upsertByTaskId s1 [scenario_record] = (s1, (1%nat, 0%nat))
  /\ (consistent [scenario_record] ->
      forall u, u ∈ fst (schedule (idToRow_of s1) [scenario_record]) ->
        take 7 <$> s1 !! (fst u - 1)%nat = Some (snd u)).
Proof.
  apply (upsert_twice (H := IntegerHost.host) "Page URL" [scenario_task]
           [scenario_record] header_only).
  - reflexivity.
  - reflexivity.
Defined.

(** C1 as stated fails twice over.  A task fetched twice under two names
    normalizes to two records with one [task_id]; both are appended by the
    first run, and the second run schedules for the row of the later one an
    overwrite with the cells of the earlier one, which are not the cells
    that row holds.  And on a store without a header row the first record
    is appended to row 1, where the second run does not read: it does not
    find the [task_id] and appends the record again. *)
Lemma upsert_twice_counterexample :
  (normalize (H := IntegerHost.host) "Page URL" [scenario_task; renamed_task]
   = Return [scenario_record; renamed_record]
   /\ let records := [scenario_record; renamed_record] in
      let s1 := fst (upsertByTaskId header_only records) in
      (3%nat, rowFromRecord scenario_record)
      ∈ fst (schedule (idToRow_of s1) records)
      /\ take 7 <$> s1 !! 2%nat = Some (rowFromRecord renamed_record)
      /\ rowFromRecord renamed_record <> rowFromRecord scenario_record)
  /\ (normalize (H := IntegerHost.host) "Page URL" [scenario_task]
      = Return [scenario_record]
      /\ let s1 := fst (upsertByTaskId [] [scenario_record]) in
         idToRow_of s1 !! "42" = None
         /\ snd (schedule (idToRow_of s1) [scenario_record])
            = [rowFromRecord scenario_record]
         /\ fst (upsertByTaskId s1 [scenario_record])
            = [rowFromRecord scenario_record; rowFromRecord scenario_record]).
Proof.
  split.
  - split; [reflexivity |]. simpl. split; [| split].
    + replace (fst (schedule _ _))
        with [(3%nat, rowFromRecord scenario_record);
              (3%nat, rowFromRecord renamed_record)]
        by (vm_compute; reflexivity).
      by left.
    + vm_compute. reflexivity.
    + discriminate.
  - split; [reflexivity |]. simpl. split; [| split]; vm_compute; reflexivity.
Qed.

(** * Further properties *)

(** ** Task Source Paginator *)

(** X1: when page [n] is the first empty one, the team-scoped paginator
    returns the tasks of the pages before it, in order, having requested
    the pages 0 to [n] and no other. *)
Theorem fetchAllTasksFromTeam_first_empty (src : page_source) (n fuel : nat) :
  (forall i, (i < n)%nat -> src i <> []) ->
  src n = [] ->
  (n < fuel)%nat ->
  fetchAllTasksFromTeam src fuel
  = Some (concat (List.map src (seq 0 n)), seq 0 (S n)).
Proof.
  intros Hfull Hempty Hfuel. unfold fetchAllTasksFromTeam.
  by rewrite (team_loop_stops src n 0 [] [] fuel).
Qed.

(** Three pages of one task, then an empty one: four requests. *)
Lemma fetchAllTasksFromTeam_first_empty_witness :
  fetchAllTasksFromTeam
    (fun p => if (p <? 3)%nat then [some_task] else []) 4
  = Some ([some_task; some_task; some_task], [0; 1; 2; 3]%nat).
Proof.
  apply (fetchAllTasksFromTeam_first_empty
           (fun p => if (p <? 3)%nat then [some_task] else []) 3 4).
  - intros i Hi. destruct i as [| [| [| i]]]; [done | done | done | lia].
  - reflexivity.
  - lia.
Defined.

Lemma list_loop_stops (src : page_source) (n : nat) :
  forall page all asked fuel,
    (forall i, (i < n)%nat -> src (page + i)%nat <> []) ->
    src (page + n)%nat = [] ->
    (page + n <= 200)%nat ->
    (n < fuel)%nat ->
    list_loop src fuel page all asked
    = Some ((all ++ concat (List.map src (seq page n)))%list,
            (asked ++ seq page (S n))%list).
Proof.
  induction n as [| n IH]; intros page all asked fuel Hfull Hempty Hcap Hfuel;
    (destruct fuel as [| fuel]; [lia |]); simpl.
  - rewrite Nat.add_0_r in Hempty. rewrite Hempty. simpl.
    by rewrite !app_nil_r.
  - destruct (src page) as [| t ts] eqn:Hp.
    { specialize (Hfull 0%nat). rewrite Nat.add_0_r in Hfull.
      exfalso. apply Hfull; [lia | done]. }
    simpl length. simpl Nat.eqb. cbv iota.
    replace (200 <? S page)%nat with false
      by (symmetry; apply Nat.ltb_ge; lia).
    rewrite IH.
    + f_equal. f_equal.
      * by rewrite <- app_assoc.
      * by rewrite <- app_assoc.
    + intros i Hi. replace (S page + i)%nat with (page + S i)%nat by lia.
      apply Hfull. lia.
    + by replace (S page + n)%nat with (page + S n)%nat by lia.
    + lia.
    + lia.
Qed.

Lemma list_loop_capped (src : page_source) (k : nat) :
  forall page all asked fuel,
    (page + k = 201)%nat -> (1 <= k)%nat -> (k <= fuel)%nat ->
    (forall i, (i < k)%nat -> src (page + i)%nat <> []) ->
    list_loop src fuel page all asked
    = Some ((all ++ concat (List.map src (seq page k)))%list,
            (asked ++ seq page k)%list).
Proof.
  intros page all asked fuel Hpage Hk Hfuel Hfull.
  destruct (list_loop_bounded src k page all asked fuel Hpage Hk Hfuel)
    as (n & Hn & Hrun & _ & [Hstop | ->]); [| done].
  exfalso. apply (Hfull (n - 1)%nat); [lia |].
  by replace (page + (n - 1))%nat with (page + n - 1)%nat by lia.
Qed.

(** X2: against a source with no empty page among the pages 0 to 200, the
    list-scoped paginator returns the tasks of exactly those 201 pages,
    having requested them and no other: what the source holds from page
    201 on is not fetched. *)
Theorem fetchAllTasksFromList_capped (src : page_source) (fuel : nat) :
  (forall i, (i <= 200)%nat -> src i <> []) ->
  (201 <= fuel)%nat ->
  fetchAllTasksFromList src fuel
  = Some (concat (List.map src (seq 0 201)), seq 0 201).
Proof.
  intros Hfull Hfuel. unfold fetchAllTasksFromList.
  rewrite (list_loop_capped src 201 0 [] [] fuel); [done | lia | lia | lia |].
  intros i Hi. apply Hfull. lia.
Qed.

(** A source that answers every page with one task. *)
Lemma fetchAllTasksFromList_capped_witness :
  fetchAllTasksFromList (fun _ => [some_task]) 201
  = Some (concat (List.map (fun _ => [some_task]) (seq 0 201)), seq 0 201).
Proof.
  apply (fetchAllTasksFromList_capped (fun _ => [some_task]) 201).
  - intros i Hi. discriminate.
  - lia.
Defined.

(** X3: when the source has an empty page among the pages 0 to 200, the
    two paginators return the same tasks after the same requests. *)
Theorem fetchers_agree (src : page_source) (n fuel : nat) :
  (forall i, (i < n)%nat -> src i <> []) ->
  src n = [] ->
  (n <= 200)%nat ->
  (n < fuel)%nat ->
  fetchAllTasksFromList src fuel = fetchAllTasksFromTeam src fuel.
Proof.
  intros Hfull Hempty Hcap Hfuel.
  unfold fetchAllTasksFromList, fetchAllTasksFromTeam.
  rewrite (list_loop_stops src n 0 [] [] fuel) by done.
  by rewrite (team_loop_stops src n 0 [] [] fuel).
Qed.

Lemma fetchers_agree_witness :
  fetchAllTasksFromList (fun p => if (p <? 3)%nat then [some_task] else []) 4
  = fetchAllTasksFromTeam
      (fun p => if (p <? 3)%nat then [some_task] else []) 4.
Proof.
  apply (fetchers_agree
           (fun p => if (p <? 3)%nat then [some_task] else []) 3 4).
  - intros i Hi. destruct i as [| [| [| i]]]; [done | done | done | lia].
  - reflexivity.
  - lia.
  - lia.
Defined.

(** ** Task Classifier *)

Lemma isDone_returns (t : jsval) :
  (exists done, isDone t = Return done) <-> label_ok t.
Proof.
  unfold isDone, status_label, String_, label_ok.
  destruct (ToPrimitive_throws _); simpl.
  - split; [by intros [? [=]] | done].
  - split; [done | by eexists].
Qed.

Lemma isDone_object (t : jsval) :
  isDone t = Return true -> exists ps, t = VObj ps.
Proof. destruct t; try discriminate. intros _. by eexists. Qed.

(** X4: an entry of the task list that is not an object (null, a string, a
    number, a boolean, an array) is never done: [isDone] answers false for
    it, without throwing. *)
Theorem isDone_non_object (t : jsval) :
  (forall ps, t <> VObj ps) -> isDone t = Return false.
Proof.
  intros Hno. destruct t as [| | b | z | x | l | ps]; try reflexivity.
  by destruct (Hno ps).
Qed.

Lemma isDone_non_object_witness :
  isDone (VArr [VStr "done"]) = Return false.
Proof. apply (isDone_non_object (VArr [VStr "done"])). discriminate. Defined.

(** ** Field Extractor *)

Section ExtractorMore.
Context `{Host}.

Lemma find_ext (p q : jsval -> completion bool) (l : list jsval) :
  (forall x, p x = q x) -> find p l = find q l.
Proof.
  intros Hpq. induction l as [| x l IH]; simpl; [done |].
  by rewrite Hpq, IH.
Qed.

(** The search returns when the predicate returns on every element. *)
Lemma find_returns (p : jsval -> completion bool) (l : list jsval) :
  (forall x, x ∈ l -> exists b, p x = Return b) ->
  exists v, find p l = Return v.
Proof.
  induction l as [| x l IH]; simpl; intros Hall; [by eexists |].
  destruct (Hall x) as [b ->]; [set_solver |]. simpl.
  destruct b; [by eexists |]. apply IH. intros y Hy. apply Hall. set_solver.
Qed.

Lemma getCustomFieldValue_returns (task : jsval) (fieldName : string) :
  names_ok task -> exists s, getCustomFieldValue task fieldName = Return s.
Proof.
  intros Hnames.
  destruct (find_returns (field_matches fieldName) (custom_fields_of task))
    as [f Hf].
  { intros f Hf. specialize (Hnames f Hf).
    unfold field_matches, field_name, String_. fold (name_value f).
    rewrite Hnames. by eexists. }
  destruct (getCustomFieldValue_found task fieldName f Hf) as (s & Hs & _).
  by exists s.
Qed.

(** X5: two requested names that differ only in case and in surrounding
    white space find the same field of every task and give the same
    value. *)
Theorem getCustomFieldValue_name_insensitive (task : jsval)
    (name1 name2 : string) :
  toLowerCase (trim name1) = toLowerCase (trim name2) ->
  getCustomFieldValue task name1 = getCustomFieldValue task name2.
Proof.
  intros Hsame. unfold getCustomFieldValue.
  rewrite (find_ext (field_matches name1) (field_matches name2)); [done |].
  intros f. unfold field_matches. by rewrite Hsame.
Qed.

End ExtractorMore.

Lemma getCustomFieldValue_name_insensitive_witness :
  getCustomFieldValue (H := IntegerHost.host) scenario_task "  PAGE url "
  = getCustomFieldValue (H := IntegerHost.host) scenario_task "Page URL".
Proof.
  apply (getCustomFieldValue_name_insensitive (H := IntegerHost.host)
           scenario_task "  PAGE url " "Page URL").
  reflexivity.
Defined.

(** ** Record Normalizer *)

Section NormalizerMore.
Context `{Host}.

(** The verdict of [toIso] on a number of milliseconds, as a function of
    the number alone *)
Lemma toIso_number (v : jsval) :
  ToPrimitive_throws v = false ->
  toIso v
  = match ToNumber v with
    | NaN => Return ""
    | Int z =>
        if z =? 0 then Return ""
        else if Z.abs z <=? 8640000000000000 then Return (iso_of_time z)
        else Throw RangeError
    | Frac w =>
        if Z.abs w <? 8640000000000000 then Return (iso_of_time w)
        else Throw RangeError
    | Infinity _ => Throw RangeError
    end.
Proof.
  intros Hconv. unfold toIso, Number_. rewrite Hconv. simpl.
  destruct (ToNumber v) as [| negative | z | w];
    unfold Date_toISOString, TimeClip, max_time, number_falsy;
    try reflexivity.
  - destruct (z =? 0); [done |].
    by destruct (Z.abs z <=? 8640000000000000).
  - by destruct (Z.abs w <? 8640000000000000).
Qed.

(** X6: what [toIso] makes of its argument.  A number of milliseconds
    gives the empty string when it is zero, a RangeError when it lies more
    than 8.64e15 ms from the epoch, and its timestamp otherwise;
    [undefined], [null] and [false] give the empty string, and [true]
    counts for one millisecond; a string, an array and a plain object are
    judged by the number they convert to, NaN giving the empty string, an
    infinity a RangeError, and a number with a fractional part the
    timestamp of its integer part; and an argument that cannot be converted, an
    object with an own property [toString], gives a TypeError. *)
Theorem toIso_outcomes :
  (forall z,
     toIso (VNum z)
     = if z =? 0 then Return ""
       else if Z.abs z <=? 8640000000000000 then Return (iso_of_time z)
       else Throw RangeError)
  /\ toIso VUndef = Return ""
  /\ toIso VNull = Return ""
  /\ toIso (VBool false) = Return ""
  /\ toIso (VBool true) = Return "1970-01-01T00:00:00.001Z"
  /\ (forall v,
        typeof v = TString \/ typeof v = TObject -> nullish v = false ->
        ToPrimitive_throws v = false ->
        (StringToNumber (ToString v) = NaN -> toIso v = Return "")
        /\ (forall z, StringToNumber (ToString v) = Int z ->
              toIso v = toIso (VNum z))
        /\ (forall w, StringToNumber (ToString v) = Frac w ->
              toIso v
              = if Z.abs w <? 8640000000000000 then Return (iso_of_time w)
                else Throw RangeError)
        /\ (forall negative,
              StringToNumber (ToString v) = Infinity negative ->
              toIso v = Throw RangeError))
  /\ (forall v, ToPrimitive_throws v = true -> toIso v = Throw TypeError).
Proof.
  split; [intros z; by rewrite toIso_number |].
  do 4 (split; [reflexivity |]). split.
  - intros v Hshape Hnn Hconv.
    assert (Hnum : ToNumber v = StringToNumber (ToString v)).
    { destruct v as [| | b | z | x | l | ps]; try done;
        by destruct Hshape as [[=] | [=]]. }
    rewrite toIso_number, Hnum by done.
    split; [by intros -> |]. split; [| split].
    + intros z ->. by rewrite toIso_number.
    + by intros w ->.
    + by intros negative ->.
  - intros v Hthrows. unfold toIso, Number_. by rewrite Hthrows.
Qed.

(** The epoch, the millisecond before it and the two ends of the range of
    valid dates *)
Example toIso_samples :
  List.map (fun z => toIso (VNum z))
    [1700000000000; -1; 8640000000000000; -8640000000000000;
     8640000000000001]
  = [Return "2023-11-14T22:13:20.000Z"; Return "1969-12-31T23:59:59.999Z";
     Return "+275760-09-13T00:00:00.000Z";
     Return "-271821-04-20T00:00:00.000Z"; Throw RangeError].
Proof. reflexivity. Qed.

Lemma toIso_returns (v : jsval) :
  (exists s, toIso v = Return s) <->
  ToPrimitive_throws v = false
  /\ match ToNumber v with
     | NaN => True
     | Int z => Z.abs z <= 8640000000000000
     | Frac w => Z.abs w < 8640000000000000
     | Infinity _ => False
     end.
Proof.
  destruct (ToPrimitive_throws v) eqn:Hconv.
  - unfold toIso, Number_. rewrite Hconv. simpl.
    split; [by intros [? [=]] | by intros [[=] _]].
  - rewrite toIso_number by done.
    destruct (ToNumber v) as [| negative | z | w].
    + split; [done | by eexists].
    + split; [by intros [? [=]] | by intros [_ []]].
    + destruct (z =? 0) eqn:Hz.
      * apply Z.eqb_eq in Hz as ->. split; [done | by eexists].
      * destruct (Z.abs z <=? 8640000000000000) eqn:Hle.
        -- apply Z.leb_le in Hle. split; [done | by eexists].
        -- apply Z.leb_gt in Hle.
           split; [by intros [? [=]] | intros [_ ?]; lia].
    + destruct (Z.abs w <? 8640000000000000) eqn:Hlt.
      * apply Z.ltb_lt in Hlt. split; [done | by eexists].
      * apply Z.ltb_ge in Hlt.
        split; [by intros [? [=]] | intros [_ ?]; lia].
Qed.

Lemma assignee_label_spec (a : jsval) :
  assignee_label a
  = if nullish a then Throw TypeError else Return (label_of a).
Proof.
  unfold assignee_label, member, label_of. destruct (nullish a); simpl;
    [done |].
  destruct (truthy (get a "username")); [done |].
  by destruct (truthy (get a "email")).
Qed.

Lemma mapM_returns {A B : Type} (f : A -> completion B) (l : list A) :
  (exists ys, mapM f l = Return ys) <->
  Forall (fun x => exists y, f x = Return y) l.
Proof.
  induction l as [| x l IH]; simpl.
  - split; [constructor | by eexists].
  - split.
    + intros [ys Hys]. destruct (f x) as [y |] eqn:Hfx; [| done].
      destruct (mapM f l) as [k |] eqn:Hk; [| done].
      constructor; [by exists y |]. apply IH. by exists k.
    + intros Hall. apply Forall_cons in Hall as [[y Hy] Hl].
      apply IH in Hl as [k Hk]. rewrite Hy. simpl. rewrite Hk. by eexists.
Qed.

Lemma mapM_app {A B : Type} (f : A -> completion B) (l1 l2 : list A) :
  mapM f (l1 ++ l2)%list
  = (ys1 ← mapM f l1; ys2 ← mapM f l2; Return (ys1 ++ ys2)%list).
Proof.
  induction l1 as [| x l1 IH]; simpl.
  - by destruct (mapM f l2).
  - rewrite IH. destruct (f x); [| done]. simpl.
    destruct (mapM f l1); [| done]. simpl.
    by destruct (mapM f l2).
Qed.

Lemma array_filter_returns (p : jsval -> completion bool) (l : list jsval) :
  (exists ys, array_filter p l = Return ys) <->
  Forall (fun x => exists b, p x = Return b) l.
Proof.
  induction l as [| x l IH]; simpl.
  - split; [constructor | by eexists].
  - split.
    + intros [ys Hys]. destruct (p x) as [b |] eqn:Hpx; [| done].
      destruct (array_filter p l) as [k |] eqn:Hk; [| done].
      constructor; [by exists b |]. apply IH. by exists k.
    + intros Hall. apply Forall_cons in Hall as [[b Hb] Hl].
      apply IH in Hl as [k Hk]. rewrite Hb. simpl. rewrite Hk. by eexists.
Qed.

Lemma array_filter_app (p : jsval -> completion bool) (l1 l2 : list jsval) :
  array_filter p (l1 ++ l2)%list
  = (ys1 ← array_filter p l1;
     ys2 ← array_filter p l2;
     Return (ys1 ++ ys2)%list).
Proof.
  induction l1 as [| x l1 IH]; simpl.
  - by destruct (array_filter p l2).
  - rewrite IH. destruct (p x) as [b |]; [| done]. simpl.
    destruct (array_filter p l1); [| done]. simpl.
    destruct (array_filter p l2); [| done]. simpl. by destruct b.
Qed.

(** The labels of the assignees are found and joined exactly when the
    assignees are in order. *)
Lemma labels_return (who : jsval) :
  (exists joined,
     (labels ← array_map assignee_label (or_else who (VArr []));
      join ", " labels) = Return joined) <->
  truthy who = false
  \/ exists l,
       who = VArr l
       /\ Forall (fun a => nullish a = false
                           /\ ToPrimitive_throws (label_of a) = false) l.
Proof.
  unfold or_else. destruct (truthy who) eqn:Hwho.
  - destruct who as [| | b | z | x | l | ps]; simpl;
      try (split; [by intros [? [=]] | by intros [[=] | (? & [=] & _)]]).
    transitivity (Forall (fun a => nullish a = false
                                   /\ ToPrimitive_throws (label_of a) = false)
                    l).
    2:{ split; [intros Hall; right; by exists l |].
        by intros [[=] | (l' & [= <-] & Hall)]. }
    clear Hwho. unfold join. induction l as [| a l IH]; simpl.
    + split; [constructor | by eexists].
    + rewrite assignee_label_spec, Forall_cons.
      destruct (nullish a); simpl.
      { split; [by intros [? [=]] | by intros [[[=] _] _]]. }
      rewrite <- IH. clear IH.
      destruct (mapM assignee_label l) as [labels |]; simpl.
      * destruct (ToPrimitive_throws (label_of a)); simpl.
        -- split; [by intros [? [=]] | by intros [[_ [=]] _]].
        -- destruct (existsb ToPrimitive_throws labels).
           ++ split; [by intros [? [=]] | by intros [_ [? [=]]]].
           ++ split; [intros _; split; [done | by eexists] | by eexists].
      * split; [by intros [? [=]] | by intros [_ [? [=]]]].
  - simpl. split; [by left | by eexists].
Qed.

(** A done task whose custom fields have names that convert becomes a
    record exactly when its id, its assignees and its closing value are in
    order. *)
Lemma to_record_returns (field : string) (t : jsval) :
  nullish t = false -> names_ok t ->
  (exists r, to_record field t = Return r) <->
  id_ok t /\ assignees_ok t /\ date_ok t.
Proof.
  intros Hnn Hnames. unfold to_record, member, String_. rewrite Hnn. simpl.
  unfold id_ok, assignees_ok, date_ok.
  fold (closing_value t).
  rewrite <- labels_return, <- toIso_returns.
  destruct (ToPrimitive_throws (or_else (get t "id") (VStr ""))); simpl.
  { split; [by intros [? [=]] | by intros [[=] _]]. }
  destruct (getCustomFieldValue_returns t field Hnames) as [page ->].
  destruct (array_map assignee_label _) as [labels |]; simpl.
  - destruct (join ", " labels) as [joined |]; simpl.
    + assert (Hclosing :
        (if truthy (get t "date_closed")
         then Return (get t "date_closed")
         else Return (get t "date_done"))
        = Return (if truthy (get t "date_closed") then get t "date_closed"
                  else get t "date_done")) by by destruct (truthy _).
      rewrite Hclosing. simpl. fold (closing_value t).
      destruct (toIso (closing_value t)) as [iso |]; simpl.
      * split; [intros _; repeat split; by eexists | by eexists].
      * split; [by intros [? [=]] | by intros (_ & _ & ? & [=])].
    + split; [by intros [? [=]] | by intros (_ & [? [=]] & _)].
  - split; [by intros [? [=]] | by intros (_ & [? [=]] & _)].
Qed.

Lemma normalize_returns_iff (field : string) (tasks : list jsval) :
  (exists records, normalize field tasks = Return records) <->
  (forall t, t ∈ tasks -> exists done, isDone t = Return done)
  /\ (forall t, t ∈ tasks -> isDone t = Return true ->
        exists r, to_record field t = Return r).
Proof.
  unfold normalize.
  destruct (array_filter isDone tasks) as [finished |] eqn:Hdone; simpl.
  - pose proof (array_filter_Return _ _ _ Hdone) as [Hall ->].
    rewrite Forall_forall in Hall.
    transitivity (exists rs, mapM (to_record field)
                               (List.filter (accepts isDone) tasks)
                             = Return rs).
    { destruct (mapM _ _); simpl; [split; by eexists |].
      split; by intros [? [=]]. }
    rewrite mapM_returns, Forall_forall. split.
    + intros Hmap. split.
      * intros t Ht. by apply Hall.
      * intros t Ht Htrue. apply Hmap, list_elem_of_In, filter_In.
        split; [by apply list_elem_of_In |]. unfold accepts. by rewrite Htrue.
    + intros [_ Hmap] t [Ht Hacc]%list_elem_of_In%filter_In.
      apply Hmap; [by apply list_elem_of_In |].
      unfold accepts in Hacc. by destruct (isDone t) as [[|] |].
  - split; [by intros [? [=]] |]. intros [Hall _].
    assert (Hsome : exists ys, array_filter isDone tasks = Return ys).
    { apply array_filter_returns, Forall_forall.
      intros t Ht. by apply Hall. }
    destruct Hsome as [ys Hys]. congruence.
Qed.

(** X7: when the custom fields of the done tasks have names that convert
    to strings, [normalize] returns exactly when the status label of every
    task converts to a string and every done task has an id that converts,
    no assignees or an array of them without a null entry and with labels
    that convert, and a closing value that converts to no date or to a
    valid one.  One task that fails this makes the whole call throw; of a
    task that is not done only the status label counts. *)
Theorem normalize_returns (field : string) (tasks : list jsval) :
  (forall t, t ∈ tasks -> isDone t = Return true -> names_ok t) ->
  (exists records, normalize field tasks = Return records) <->
  (forall t, t ∈ tasks -> label_ok t)
  /\ (forall t, t ∈ tasks -> isDone t = Return true ->
        id_ok t /\ assignees_ok t /\ date_ok t).
Proof.
  intros Hnames. rewrite normalize_returns_iff. split.
  - intros [Hlabel Hrec]. split.
    + intros t Ht. by apply isDone_returns, Hlabel.
    + intros t Ht Hdone. destruct (isDone_object t Hdone) as [ps ->].
      apply (to_record_returns field (VObj ps) eq_refl
               (Hnames _ Ht Hdone)).
      by apply Hrec.
  - intros [Hlabel Hrec]. split.
    + intros t Ht. by apply isDone_returns, Hlabel.
    + intros t Ht Hdone. destruct (isDone_object t Hdone) as [ps ->].
      apply (to_record_returns field (VObj ps) eq_refl
               (Hnames _ Ht Hdone)).
      by apply Hrec.
Qed.

(** X8: [normalize] works through the list in order.  On two lists put
    end to end it returns exactly when it returns on both, and then the
    records of the first followed by the records of the second; and since
    the whole list is classified before the first task is mapped, a task of
    the second list that cannot be classified ends the call with its
    exception, whatever the mapping of the first list throws. *)
Theorem normalize_app (field : string) (tasks1 tasks2 : list jsval) :
  (forall records,
     normalize field (tasks1 ++ tasks2)%list = Return records <->
     exists records1 records2,
       normalize field tasks1 = Return records1
       /\ normalize field tasks2 = Return records2
       /\ records = (records1 ++ records2)%list)
  /\ (forall finished1 e,
        array_filter isDone tasks1 = Return finished1 ->
        array_filter isDone tasks2 = Throw e ->
        normalize field (tasks1 ++ tasks2)%list = Throw e).
Proof.
  unfold normalize. rewrite array_filter_app. split.
  - intros records.
    destruct (array_filter isDone tasks1) as [d1 |]; simpl.
    2:{ split; [done | by intros (? & ? & [=] & _)]. }
    destruct (array_filter isDone tasks2) as [d2 |]; simpl.
    2:{ split; [done |]. intros (? & ? & Hleft & [=] & _). }
    rewrite mapM_app.
    destruct (mapM _ d1) as [rs1 |]; simpl.
    2:{ split; [done | by intros (? & ? & [=] & _)]. }
    destruct (mapM _ d2) as [rs2 |]; simpl.
    2:{ split; [done | by intros (? & ? & _ & [=] & _)]. }
    rewrite List.filter_app. split.
    + intros [= <-]. by eexists _, _.
    + by intros (? & ? & [= <-] & [= <-] & ->).
  - intros finished1 e -> ->. reflexivity.
Qed.

End NormalizerMore.

Lemma normalize_returns_witness :
  (exists records,
     normalize (H := IntegerHost.host) "Page URL" [scenario_task]
     = Return records) <->
  (forall t, t ∈ [scenario_task] -> label_ok t)
  /\ (forall t, t ∈ [scenario_task] -> isDone t = Return true ->
        id_ok t /\ assignees_ok t
        /\ date_ok (H := IntegerHost.host) t).
Proof.
  apply (normalize_returns (H := IntegerHost.host) "Page URL"
           [scenario_task]).
  intros t ->%list_elem_of_singleton _ f Hf.
  apply list_elem_of_singleton in Hf as ->. reflexivity.
Defined.

(** A done task with a null entry among its assignees, and one closed
    beyond the last valid date: each makes [normalize] throw, also behind a
    task that is in order.  A task whose status label cannot be converted
    makes it throw although the task is not done, and before the closing
    date of an earlier task is looked at. *)
Example normalize_throws :
  normalize (H := IntegerHost.host) "Page URL"
    [scenario_task;
     VObj [("id", VStr "7"); ("archived", VBool true);
           ("assignees", VArr [VNull])]]
  = Throw TypeError
  /\ normalize (H := IntegerHost.host) "Page URL"
       [scenario_task;
        VObj [("id", VStr "7"); ("archived", VBool true);
              ("date_closed", VStr "8640000000000001")]]
     = Throw RangeError
  /\ normalize (H := IntegerHost.host) "Page URL"
       [VObj [("id", VStr "7"); ("archived", VBool true);
              ("date_closed", VStr "8640000000000001")];
        VObj [("status", VObj [("status", VObj [("toString", VNum 1)])])]]
     = Throw TypeError.
Proof. repeat split; reflexivity. Qed.

(** ** Header Guard *)

(** What the guard reads of row 1 *)
Lemma header_read (s : list (list jsval)) :
  match values_get 1 (Some 1%nat) s with
  | Some (r :: _) => r
  | _ => []
  end = trim_row (default [] (head s)).
Proof.
  destruct s as [| r rest]; [reflexivity |].
  unfold values_get. simpl. by destruct (trim_row r).
Qed.

Lemma every_header_Forall2 (existing : list jsval) :
  forall i,
    (length existing =? length (drop i HEADERS))%nat
    && every_header i existing = true
    <-> Forall2 (fun c h => trim (ToString c) = h) existing (drop i HEADERS).
Proof.
  induction existing as [| v rest IH]; intros i.
  - simpl every_header. rewrite andb_true_r. split.
    + intros Hlen%Nat.eqb_eq. destruct (drop i HEADERS); [constructor | done].
    + intros Hall. apply Forall2_nil_inv_l in Hall. by rewrite Hall.
  - simpl every_header. destruct (HEADERS !! i) as [h |] eqn:Hi.
    + rewrite (drop_S _ _ _ Hi). simpl length. rewrite Forall2_cons.
      rewrite <- IH. simpl Nat.eqb. rewrite !andb_true_iff.
      rewrite String.eqb_eq. tauto.
    + rewrite (drop_ge HEADERS i) by (by apply lookup_ge_None).
      simpl. split; [done |]. intros Hall. by apply Forall2_nil_inv_r in Hall.
Qed.

(** The guard writes unless row 1 is accepted, and what it writes is the
    header over the cells A to G of row 1. *)
Lemma ensureHeaderRow_cases (s : list (list jsval)) :
  (header_accepted s /\ ensureHeaderRow s = (s, false))
  \/ (~ header_accepted s
      /\ ensureHeaderRow s = (values_update 1 (List.map VStr HEADERS) s, true)).
Proof.
  unfold ensureHeaderRow. rewrite header_read.
  pose proof (every_header_Forall2 (trim_row (default [] (head s))) 0) as Hok.
  rewrite drop_0 in Hok. fold (header_accepted s) in Hok.
  destruct (_ && _).
  - left. split; [by apply Hok | done].
  - right. split; [| done]. intros Hacc. by apply Hok in Hacc.
Qed.

(** X9: the Header Guard leaves the store alone exactly when the cells A
    to G of row 1, trailing empty cells apart, read as the seven column
    names in order, white space around a name not counting; in every other
    case it writes. *)
Theorem ensureHeaderRow_accepts (s : list (list jsval)) :
  (ensureHeaderRow s = (s, false) <-> header_accepted s)
  /\ (snd (ensureHeaderRow s) = true <-> ~ header_accepted s).
Proof.
  destruct (ensureHeaderRow_cases s) as [[Hacc ->] | [Hno ->]]; simpl.
  - split; [done |]. split; [done | by intros []].
  - split; [| done]. split; [by intros [= _ [=]] | done].
Qed.

(** A header typed with blanks around its names is accepted as it
    stands. *)
Example ensureHeaderRow_padded_header :
  let s := [[VStr " task_id"; VStr "task_name "; VStr "status";
             VStr "assignees"; VStr "page_url"; VStr "date_closed";
             VStr "  url  "; VStr "notes"]] in
  ensureHeaderRow s = (s, false).
Proof. reflexivity. Qed.

Lemma header_accepted_written (r : list jsval) (rest : list (list jsval)) :
  header_accepted ((List.map VStr HEADERS ++ r)%list :: rest).
Proof.
  unfold header_accepted. simpl. unfold trim_row. simpl.
  repeat constructor.
Qed.

(** X10: for every store, the Header Guard changes at most the cells A to
    G of row 1: the rows from row 2 on and the cells of row 1 right of G
    stay as they were, and no row is inserted before them.  Run again on
    the store it leaves, it writes nothing. *)
Theorem ensureHeaderRow_idempotent (s : list (list jsval)) :
  let s1 := fst (ensureHeaderRow s) in
  ensureHeaderRow s1 = (s1, false)
  /\ (forall j, (1 <= j)%nat -> s1 !! j = s !! j)
  /\ length s1 = Nat.max 1 (length s)
  /\ drop 7 (default [] (head s1)) = drop 7 (default [] (head s)).
Proof.
  simpl. destruct (ensureHeaderRow_cases s) as [[Hacc Hrun] | [Hno Hrun]];
    rewrite Hrun; simpl.
  - split; [done |]. split; [done |]. split; [| done].
    destruct s as [| r rest]; [| simpl; lia].
    unfold header_accepted in Hacc. simpl in Hacc. inversion Hacc.
  - destruct s as [| r rest].
    + split; [reflexivity |]. split; [| done].
      intros j Hj. by destruct j; [lia |].
    + change (values_update 1 (List.map VStr HEADERS) (r :: rest))
        with ((List.map VStr HEADERS ++ drop 7 r)%list :: rest).
      split; [| split; [| split]].
      * destruct (ensureHeaderRow_cases
                    ((List.map VStr HEADERS ++ drop 7 r)%list :: rest))
          as [[_ Hrun'] | [Hno' _]]; [done |].
        destruct Hno'. apply header_accepted_written.
      * intros j Hj. by destruct j; [lia |].
      * simpl. lia.
      * reflexivity.
Qed.

(** ** Sheet Reconciler *)

(** X11: every record of a batch is scheduled once, as an overwrite or as
    an append: the two counts that [upsertByTaskId] logs add up to the
    number of records. *)
Theorem upsert_counts (s : list (list jsval)) (records : list record) :
  (fst (snd (upsertByTaskId s records))
   + snd (snd (upsertByTaskId s records)))%nat
  = length records.
Proof.
  rewrite upsertByTaskId_unfold. simpl. apply length_updates_appends.
Qed.

(** X12: a record whose [task_id] is in the mapping overwrites the cells A
    to G of the row it is mapped to with its own seven values, whatever
    they held, and leaves the cells of that row right of G; when several
    records of the batch carry the [task_id], the last of them is the one
    the row ends up with. *)
Theorem upsert_overwrites (s : list (list jsval)) (records : list record)
    (r : record) (j : nat) (old : list jsval) :
  task_id r <> "" ->
  idToRow_of s !! task_id r = Some (S j) ->
  s !! j = Some old ->
  last_rec (fun r' => bool_decide (task_id r' = task_id r)) records = Some r ->
  fst (upsertByTaskId s records) !! j
  = Some (rowFromRecord r ++ drop 7 old)%list.
Proof.
  intros Hid Hm Hold Hlast. rewrite upsertByTaskId_unfold. simpl.
  destruct (batchUpdate_updates_of s records) as [_ Hrows].
  specialize (Hrows j).
  rewrite (last_rec_target s records (task_id r) j Hm), Hlast, Hold in Hrows.
  simpl in Hrows.
  rewrite values_append_lookup, decide_True; [done |].
  eapply table_end_not_blank; [exact Hrows |].
  eapply row_key_not_blank. by apply row_key_overwrite.
Qed.

(** The sheet whose rows 2 and 3 carry T1: a record for T1 takes row 3 and
    leaves the note in its column H. *)
Lemma upsert_overwrites_witness :
  fst (upsertByTaskId
         [List.map VStr HEADERS;
          [VStr "T1"; VStr "first"];
          [VStr "T1"; VStr "second"; VStr ""; VStr ""; VStr ""; VStr "";
           VStr ""; VStr "note"]]
         [sample_record "T1" "old"; sample_record "T1" "new"]) !! 2%nat
  = Some (rowFromRecord (sample_record "T1" "new") ++ [VStr "note"])%list.
Proof.
  apply (upsert_overwrites
           [List.map VStr HEADERS;
            [VStr "T1"; VStr "first"];
            [VStr "T1"; VStr "second"; VStr ""; VStr ""; VStr ""; VStr "";
             VStr ""; VStr "note"]]
           [sample_record "T1" "old"; sample_record "T1" "new"]
           (sample_record "T1" "new") 2
           [VStr "T1"; VStr "second"; VStr ""; VStr ""; VStr ""; VStr "";
            VStr ""; VStr "note"]).
  - discriminate.
  - vm_compute. reflexivity.
  - reflexivity.
  - reflexivity.
Defined.

Lemma header_table_end (s : list (list jsval)) :
  header_present s = true -> (1 <= table_end s)%nat.
Proof.
  intros (h & Hh & Hdata)%header_present_row.
  pose proof (table_end_not_blank s 0 h Hh Hdata). lia.
Qed.

(** The mapping read after one record was appended. *)
Lemma appended_row_found (s : list (list jsval)) (r : record) :
  header_present s = true ->
  task_id r <> "" ->
  idToRow_of s !! task_id r = None ->
  idToRow_of (values_append [rowFromRecord r] s) !! task_id r
  = Some (S (table_end s)).
Proof.
  intros Hheader Hid Hnew. pose proof (header_table_end s Hheader) as Hpos.
  apply idToRow_of_Some. exists (table_end s).
  split; [done |]. split; [done |]. split.
  - exists (rowFromRecord r). split; [| by apply row_key_rowFromRecord].
    rewrite values_append_lookup, decide_False by lia.
    rewrite decide_True by (simpl; lia). by rewrite Nat.sub_diag.
  - intros j' row' Hlt Hrow'. rewrite values_append_lookup in Hrow'.
    rewrite decide_False in Hrow' by lia.
    rewrite decide_False in Hrow' by (simpl; lia). simpl in Hrow'.
    rewrite (row_blank_no_key row'); [done |].
    apply (table_end_blank s (j' - 1)%nat row'); [lia | done].
Qed.

(** X13: on a store whose header row is in place, a record whose
    [task_id] the mapping does not hold is appended after the table, with
    the counts 0 and 1; submitted again with other values under the same
    [task_id], it is found, the counts are 1 and 0, and the store is what
    it would be had the later values been appended in the first place: one
    row for the [task_id], holding the later values. *)
Theorem upsert_round_trip (s : list (list jsval)) (r r' : record) :
  header_present s = true ->
  task_id r <> "" ->
  task_id r' = task_id r ->
  idToRow_of s !! task_id r = None ->
  upsertByTaskId s [r] = (values_append [rowFromRecord r] s, (0, 1)%nat)
  /\ upsertByTaskId (values_append [rowFromRecord r] s) [r']
     = (values_append [rowFromRecord r'] s, (1, 0)%nat).
Proof.
  intros Hheader Hid Hsame Hnew. split.
  - rewrite upsertByTaskId_unfold, updates_of_cons, appends_of_cons.
    by rewrite (proj2 (target_None s r) Hnew).
  - pose proof (appended_row_found s r Hheader Hid Hnew) as Hfound.
    pose proof (header_table_end s Hheader) as Hpos.
    pose proof (table_end_le s) as Hle.
    rewrite upsertByTaskId_unfold, updates_of_cons, appends_of_cons.
    assert (Ht : target (idToRow_of (values_append [rowFromRecord r] s)) r'
                 = Some (S (table_end s))).
    { apply target_Some. by rewrite Hsame. }
    rewrite Ht. simpl. rewrite values_append_nil. f_equal.
    unfold values_update.
    replace (S (table_end s) - 1 <? _)%nat with true
      by (symmetry; apply Nat.ltb_lt; rewrite values_append_length;
          simpl; lia).
    apply list_eq. intros j.
    rewrite list_lookup_alter, !values_append_lookup.
    replace (S (table_end s) - 1)%nat with (table_end s) by lia.
    destruct (decide (table_end s = j)) as [<- | Hne].
    + rewrite decide_False by lia. rewrite decide_True by (simpl; lia).
      rewrite decide_False by lia. rewrite decide_True by (simpl; lia).
      by rewrite Nat.sub_diag.
    + destruct (decide (j < table_end s)%nat); [done |].
      rewrite decide_False by (simpl; lia).
      by rewrite decide_False by (simpl; lia).
Qed.

(** A record for T1 sent to a sheet that holds only the header, then sent
    again renamed. *)
Lemma upsert_round_trip_witness :
  upsertByTaskId header_only [sample_record "T1" "one"]
  = (values_append [rowFromRecord (sample_record "T1" "one")] header_only,
     (0, 1)%nat)
  /\ upsertByTaskId
       (values_append [rowFromRecord (sample_record "T1" "one")] header_only)
       [sample_record "T1" "two"]
     = (values_append [rowFromRecord (sample_record "T1" "two")] header_only,
        (1, 0)%nat).
Proof.
  apply (upsert_round_trip header_only (sample_record "T1" "one")
           (sample_record "T1" "two")).
  - reflexivity.
  - discriminate.
  - reflexivity.
  - vm_compute. reflexivity.
Defined.

(** ** The run *)

(** The guard leaves a row 1 that it accepts. *)
Lemma ensureHeaderRow_leaves_accepted (s : list (list jsval)) :
  header_accepted (fst (ensureHeaderRow s)).
Proof.
  destruct (ensureHeaderRow_cases s) as [[Hacc ->] | [_ ->]]; [done |].
  destruct s as [| r rest]; [apply (header_accepted_written [] []) |].
  apply header_accepted_written.
Qed.

(** The first run of [upsertByTaskId] leaves row 1 as it was. *)
Lemma after_upsert_header (s : list (list jsval)) (records : list record) :
  header_present s = true ->
  (forall r, r ∈ records -> task_id r <> "") ->
  head (after_upsert s records) = head s.
Proof.
  intros Hheader Hids. rewrite !head_lookup.
  pose proof (table_end_positive s records Hheader Hids) as Hpos.
  rewrite first_run_table by lia.
  destruct (header_present_row s Hheader) as (h & Hh & _).
  destruct (overwritten_key s records Hids 0 h Hh) as (h' & Hh' & _).
  destruct (overwritten_row s records Hids 0 h' Hh')
    as (h0 & Hh0 & _ & Heq).
  assert (last_rec (fun r => bool_decide
                      (target (idToRow_of s) r = Some 1%nat))
            records = None) as Hnone.
  { apply last_rec_None. intros r _. apply bool_decide_eq_false.
    intros Ht. apply target_row in Ht as [Hle _]. lia. }
  rewrite Hnone in Heq. congruence.
Qed.

Section MainFacts.
Context `{Host}.

(** A run that went through leaves a store whose header the guard accepts
    and on which the same tasks change nothing. *)
Lemma sync_again (field : string) (tasks : list jsval)
    (s s1 : list (list jsval)) (counts : nat * nat) :
  sync field tasks s = (s1, Return counts) ->
  ensureHeaderRow s1 = (s1, false)
  /\ sync field tasks s1
     = (s1, Return ((fst counts + snd counts)%nat, 0%nat)).
Proof.
  unfold sync. destruct (normalize field tasks) as [records |] eqn:Hnorm;
    [| by intros [= _ [=]]].
  assert (Hids : forall r, r ∈ records -> task_id r <> "").
  { intros r Hr. by destruct (normalize_Return _ _ _ Hnorm r Hr). }
  set (s' := fst (ensureHeaderRow s)).
  pose proof (ensureHeaderRow_header_present s) as Hheader. fold s' in Hheader.
  rewrite (upsertByTaskId_unfold s' records).
  intros [= <- <-]. simpl fst. simpl snd.
  rewrite length_updates_appends.
  fold (after_overwrites s' records). fold (after_upsert s' records).
  assert (Hacc : header_accepted (after_upsert s' records)).
  { unfold header_accepted. rewrite after_upsert_header by done.
    apply ensureHeaderRow_leaves_accepted. }
  destruct (ensureHeaderRow_cases (after_upsert s' records))
    as [[_ ->] | [Hno _]]; [| done].
  split; [done |]. simpl. by rewrite second_run.
Qed.

(** X14: the whole run is idempotent on every store: when a run of either
    script went through and left a store, a second run that fetches the
    same tasks from the same source leaves that store as it is and logs
    every record as updated and none as appended; its Header Guard finds
    the header in place and writes nothing. *)
Theorem main_twice (field : string) (src : page_source) (fuel : nat)
    (s s1 : list (list jsval)) (counts : nat * nat) :
  (main_list field src fuel s = Some (s1, Return counts) ->
   ensureHeaderRow s1 = (s1, false)
   /\ main_list field src fuel s1
      = Some (s1, Return ((fst counts + snd counts)%nat, 0%nat)))
  /\ (main_team field src fuel s = Some (s1, Return counts) ->
      ensureHeaderRow s1 = (s1, false)
      /\ main_team field src fuel s1
         = Some (s1, Return ((fst counts + snd counts)%nat, 0%nat))).
Proof.
  split.
  - unfold main_list. destruct (fetchAllTasksFromList src fuel)
      as [[tasks asked] |]; [| done].
    intros [= Hrun]. destruct (sync_again _ _ _ _ _ Hrun) as [Hguard ->].
    done.
  - unfold main_team. destruct (fetchAllTasksFromTeam src fuel)
      as [[tasks asked] |]; [| done].
    intros [= Hrun]. destruct (sync_again _ _ _ _ _ Hrun) as [Hguard ->].
    done.
Qed.

End MainFacts.

(** The scenario of the specification, fetched from a source of one page,
    run twice on an empty store. *)
Example main_twice_scenario :
  let src := fun p : nat => if (p =? 0)%nat then [scenario_task] else [] in
  let run := main_list (H := IntegerHost.host) "Page URL" src 201 in
  run [] = Some ([List.map VStr HEADERS; rowFromRecord scenario_record],
                 Return (0, 1)%nat)
  /\ run [List.map VStr HEADERS; rowFromRecord scenario_record]
     = Some ([List.map VStr HEADERS; rowFromRecord scenario_record],
             Return (1, 0)%nat).
Proof. split; vm_compute; reflexivity. Qed.

(** ** Start-up *)

Lemma trimEnd_idempotent (s : string) : trimEnd (trimEnd s) = trimEnd s.
Proof.
  induction s as [| c s IH]; simpl; [done |].
  destruct (trimEnd s) as [| d u] eqn:Hs.
  - destruct (is_space c) eqn:Hc; simpl; [done | by rewrite Hc].
  - change (trimEnd (String c (String d u)))
      with (match trimEnd (String d u) with
            | EmptyString =>
                if is_space c then EmptyString else String c EmptyString
            | t => String c t
            end).
    by rewrite IH.
Qed.

Lemma trimStart_head (s : string) :
  trimStart s = EmptyString
  \/ exists c t, trimStart s = String c t /\ is_space c = false.
Proof.
  induction s as [| c s IH]; simpl; [by left |].
  destruct (is_space c) eqn:Hc; [done |]. right. by exists c, s.
Qed.

Lemma trimEnd_head (c : ascii) (t : string) :
  is_space c = false -> exists t', trimEnd (String c t) = String c t'.
Proof.
  intros Hc. simpl. destruct (trimEnd t); rewrite ?Hc; by eexists.
Qed.

(** Trimming what is trimmed changes nothing. *)
Lemma trim_idempotent (s : string) : trim (trim s) = trim s.
Proof.
  unfold trim. destruct (trimStart_head s) as [-> | (c & t & -> & Hc)];
    [done |].
  destruct (trimEnd_head c t Hc) as [t' Ht']. rewrite Ht'.
  simpl trimStart. rewrite Hc, <- Ht'. apply trimEnd_idempotent.
Qed.

Lemma setting_trimmed (env : gmap string string) (name fallback : string) :
  trim (setting env name fallback) = setting env name fallback.
Proof. unfold setting. apply trim_idempotent. Qed.

(** X15: in the settings a start-up of either script goes on with, the
    token, the collection id and the sheet id are not empty and carry no
    white space at either end, the raw credentials are not empty, and the
    tab name and the field name are trimmed too; a tab name or field name
    that the environment does not set, or sets to the empty string, is
    [Completed Tasks] or [Page URL]. *)
Theorem startup_settings (id_name : string) (env : gmap string string)
    (cfg : config) :
  startup_with id_name env = Started cfg ->
  (CLICKUP_TOKEN cfg <> "" /\ trim (CLICKUP_TOKEN cfg) = CLICKUP_TOKEN cfg)
  /\ (CLICKUP_COLLECTION_ID cfg <> ""
      /\ trim (CLICKUP_COLLECTION_ID cfg) = CLICKUP_COLLECTION_ID cfg)
  /\ (GOOGLE_SHEET_ID cfg <> ""
      /\ trim (GOOGLE_SHEET_ID cfg) = GOOGLE_SHEET_ID cfg)
  /\ SA_JSON_RAW cfg <> ""
  /\ trim (SHEET_TAB_NAME cfg) = SHEET_TAB_NAME cfg
  /\ trim (PAGE_URL_FIELD_NAME cfg) = PAGE_URL_FIELD_NAME cfg
  /\ (env !! "SHEET_TAB_NAME" = None \/ env !! "SHEET_TAB_NAME" = Some "" ->
      SHEET_TAB_NAME cfg = "Completed Tasks")
  /\ (env !! "PAGE_URL_FIELD_NAME" = None
      \/ env !! "PAGE_URL_FIELD_NAME" = Some "" ->
      PAGE_URL_FIELD_NAME cfg = "Page URL").
Proof.
  unfold startup_with.
  destruct (String.eqb_spec (setting env "CLICKUP_TOKEN" "") "") as [| Ht];
    [done |].
  destruct (String.eqb_spec (setting env id_name "") "") as [| Hi]; [done |].
  destruct (String.eqb_spec (setting env "GOOGLE_SHEET_ID" "") "") as [| Hs];
    [done |].
  destruct (String.eqb_spec
              (default "" (env !! "GOOGLE_SERVICE_ACCOUNT_JSON")) "")
    as [| Hr]; [done |].
  intros [= <-]. simpl. rewrite !setting_trimmed.
  repeat split; try done.
  - intros [Hnone | Hempty]; unfold setting; [by rewrite Hnone |].
    by rewrite Hempty.
  - intros [Hnone | Hempty]; unfold setting; [by rewrite Hnone |].
    by rewrite Hempty.
Qed.

Lemma startup_settings_witness :
  let cfg := {| CLICKUP_TOKEN := "pk_1";
                CLICKUP_COLLECTION_ID := "901";
                GOOGLE_SHEET_ID := "sheet";
                SHEET_TAB_NAME := "Completed Tasks";
                PAGE_URL_FIELD_NAME := "Page URL";
                SA_JSON_RAW := "{}" |} in
  (CLICKUP_TOKEN cfg <> "" /\ trim (CLICKUP_TOKEN cfg) = CLICKUP_TOKEN cfg)
  /\ (CLICKUP_COLLECTION_ID cfg <> ""
      /\ trim (CLICKUP_COLLECTION_ID cfg) = CLICKUP_COLLECTION_ID cfg)
  /\ (GOOGLE_SHEET_ID cfg <> ""
      /\ trim (GOOGLE_SHEET_ID cfg) = GOOGLE_SHEET_ID cfg)
  /\ SA_JSON_RAW cfg <> ""
  /\ trim (SHEET_TAB_NAME cfg) = SHEET_TAB_NAME cfg
  /\ trim (PAGE_URL_FIELD_NAME cfg) = PAGE_URL_FIELD_NAME cfg
  /\ (sample_env !! "SHEET_TAB_NAME" = None
      \/ sample_env !! "SHEET_TAB_NAME" = Some "" ->
      SHEET_TAB_NAME cfg = "Completed Tasks")
  /\ (sample_env !! "PAGE_URL_FIELD_NAME" = None
      \/ sample_env !! "PAGE_URL_FIELD_NAME" = Some "" ->
      PAGE_URL_FIELD_NAME cfg = "Page URL").
Proof.
  apply (startup_settings "CLICKUP_LIST_ID" sample_env). vm_compute.
  reflexivity.
Defined.

(** A tab name set to blanks is neither rejected nor replaced by the
    default: the start-up goes on with the empty tab name. *)
Example startup_blank_tab_name :
  SHEET_TAB_NAME <$>
    (match startup_list (<["SHEET_TAB_NAME" := "   "]> sample_env) with
     | Started cfg => Some cfg
     | _ => None
     end)
  = Some "".
Proof. vm_compute. reflexivity. Qed.

Lemma string_ind2 (P : string -> Prop) :
  P EmptyString ->
  (forall c, P (String c EmptyString)) ->
  (forall c d s, P s -> P (String d s) -> P (String c (String d s))) ->
  forall s, P s.
Proof.
  intros Hnil Hone Hstep s.
  assert (Hboth : P s /\ forall c, P (String c s)); [| by destruct Hboth].
  induction s as [| d s [IH1 IH2]]; [by split |].
  split; [apply IH2 |]. intros c. apply Hstep; [done | apply IH2].
Qed.

Lemma unescape_head (d : ascii) (s : string) :
  exists x t, unescape (String d s) = String x t /\ (x = newline \/ x = d).
Proof.
  destruct s as [| e s]; simpl; [by exists d, EmptyString; split; [| right] |].
  destruct (Ascii.eqb d backslash && Ascii.eqb e letter_n).
  - eexists _, _. split; [done | by left].
  - eexists _, _. split; [done | by right].
Qed.

Lemma includes_escaped_newline (t : string) :
  includes_escaped (String newline t) = includes_escaped t.
Proof. by destruct t. Qed.

(** No escaped line break is left in an unescaped key. *)
Lemma unescape_clean (s : string) : includes_escaped (unescape s) = false.
Proof.
  induction s as [| c | c d s IH1 IH2] using string_ind2; [done | done |].
  change (unescape (String c (String d s)))
    with (if Ascii.eqb c backslash && Ascii.eqb d letter_n
          then String newline (unescape s)
          else String c (unescape (String d s))).
  destruct (Ascii.eqb c backslash && Ascii.eqb d letter_n) eqn:Hcd.
  - by rewrite includes_escaped_newline.
  - destruct (unescape_head d s) as (x & t & Hx & Hhead).
    rewrite Hx in *.
    change (includes_escaped (String c (String x t)))
      with (Ascii.eqb c backslash && Ascii.eqb x letter_n
            || includes_escaped (String x t)).
    rewrite IH2, orb_false_r.
    destruct Hhead as [-> | ->]; [| done].
    by rewrite andb_false_r.
Qed.

(** A key without escaped line breaks is unescaped to itself. *)
Lemma unescape_same (s : string) :
  includes_escaped s = false -> unescape s = s.
Proof.
  induction s as [| c | c d s IH1 IH2] using string_ind2; [done | done |].
  intros Hno.
  change (includes_escaped (String c (String d s)))
    with (Ascii.eqb c backslash && Ascii.eqb d letter_n
          || includes_escaped (String d s)) in Hno.
  apply orb_false_iff in Hno as [Hcd Hrest].
  change (unescape (String c (String d s)))
    with (if Ascii.eqb c backslash && Ascii.eqb d letter_n
          then String newline (unescape s)
          else String c (unescape (String d s))).
  by rewrite Hcd, IH2.
Qed.

(** X16: the private key the team-scoped script signs with is the key of
    the service account with every escaped line break (a backslash and the
    letter n) turned into a line break: a key that is a string comes out
    with no escaped line break left and as itself when it had none, a key
    that is not a string comes out as it is, and doing it twice is doing
    it once. *)
Theorem private_key_unescaped (key : jsval) :
  private_key_of (private_key_of key) = private_key_of key
  /\ (forall k, key = VStr k ->
        private_key_of key = VStr (unescape k)
        /\ includes_escaped (unescape k) = false
        /\ (includes_escaped k = false -> private_key_of key = key))
  /\ (typeof key <> TString -> private_key_of key = key).
Proof.
  split; [| split].
  - destruct key as [| | b | z | k | l | ps]; try done. simpl.
    destruct (includes_escaped k) eqn:Hk; simpl.
    + by rewrite unescape_clean.
    + by rewrite Hk.
  - intros k ->. simpl. split; [| split].
    + destruct (includes_escaped k) eqn:Hk; [done |].
      by rewrite unescape_same.
    + apply unescape_clean.
    + by intros ->.
  - by destruct key.
Qed.

(** A key as a secret store hands it over, its two line breaks escaped. *)
Example private_key_sample :
  let esc := String backslash (String letter_n EmptyString) in
  let nl := String newline EmptyString in
  private_key_of (VStr ("BEGIN" +:+ esc +:+ "abc" +:+ esc +:+ "END"))
  = VStr ("BEGIN" +:+ nl +:+ "abc" +:+ nl +:+ "END").
Proof. reflexivity. Qed.

(** X17: the team-scoped script goes on only with credentials that parse
    to a value whose [type] is the string [service_account] and whose
    [client_email] and [private_key] are truthy, after the four settings
    were found; the key it signs with then has no escaped line break when
    it is a string. *)
Theorem startup_team_checked (parse : string -> option jsval)
    (env : gmap string string) (cfg : config) (account : service_account) :
  startup_team parse env = Started (cfg, account) ->
  startup_with "CLICKUP_TEAM_ID" env = Started cfg
  /\ parse (SA_JSON_RAW cfg) = Some (SA account)
  /\ get (SA account) "type" = VStr "service_account"
  /\ truthy (get (SA account) "client_email") = true
  /\ truthy (get (SA account) "private_key") = true
  /\ SA_PRIVATE_KEY account = private_key_of (get (SA account) "private_key")
  /\ (forall k, SA_PRIVATE_KEY account = VStr k -> includes_escaped k = false).
Proof.
  unfold startup_team.
  destruct (startup_with "CLICKUP_TEAM_ID" env) as [cfg' | |];
    [| done | done].
  destruct (parse (SA_JSON_RAW cfg')) as [sa |] eqn:Hparse; [| done].
  destruct (opt_member sa "type") as [| | | | ty | |] eqn:Hty;
    try (by destruct (String_ _)).
  destruct (String.eqb_spec ty "service_account") as [-> | Hne].
  2: { intros Hrun. exfalso. revert Hrun.
       repeat (match goal with
               | |- context [match ?x with _ => _ end] => destruct x
               end; try done); by destruct Hne. }
  destruct (truthy (opt_member sa "client_email")) eqn:Hmail; [| done].
  destruct (truthy (opt_member sa "private_key")) eqn:Hkey; [| done].
  simpl. intros [= <- <-]. simpl.
  assert (Hnn : nullish sa = false) by (by destruct sa).
  unfold opt_member in *. rewrite Hnn in *.
  repeat split; try done.
  intros k Hk. destruct (get sa "private_key") as [| | | | k0 | |]; try done.
  simpl in Hk. destruct (includes_escaped k0) eqn:Hk0.
  - injection Hk as <-. apply unescape_clean.
  - by injection Hk as <-.
Qed.

Lemma startup_team_checked_witness :
  let cfg := {| CLICKUP_TOKEN := "pk_1";
                CLICKUP_COLLECTION_ID := "77";
                GOOGLE_SHEET_ID := "sheet";
                SHEET_TAB_NAME := "Completed Tasks";
                PAGE_URL_FIELD_NAME := "Page URL";
                SA_JSON_RAW := "account" |} in
  let account :=
    {| SA := sample_account;
       SA_PRIVATE_KEY := VStr ("KEY" +:+ String newline EmptyString) |} in
  startup_with "CLICKUP_TEAM_ID" sample_team_env = Started cfg
  /\ sample_parse (SA_JSON_RAW cfg) = Some (SA account)
  /\ get (SA account) "type" = VStr "service_account"
  /\ truthy (get (SA account) "client_email") = true
  /\ truthy (get (SA account) "private_key") = true
  /\ SA_PRIVATE_KEY account = private_key_of (get (SA account) "private_key")
  /\ (forall k, SA_PRIVATE_KEY account = VStr k -> includes_escaped k = false).
Proof.
  apply (startup_team_checked sample_parse sample_team_env).
  vm_compute. reflexivity.
Defined.

(** ** Termination of the list-scoped run *)

(** X18: the list-scoped paginator returns for every source once it is
    given 201 iterations: it has then made at most 201 requests, for the
    pages 0, 1, 2 and so on in order, and returns the tasks of the pages it
    requested, in that order. *)
Theorem fetchAllTasksFromList_terminates (src : page_source) (fuel : nat) :
  (201 <= fuel)%nat ->
  exists tasks asked,
    fetchAllTasksFromList src fuel = Some (tasks, asked)
    /\ (1 <= length asked <= 201)%nat
    /\ asked = seq 0 (length asked)
    /\ tasks = concat (List.map src asked).
Proof.
  intros Hfuel. unfold fetchAllTasksFromList.
  destruct (list_loop_bounded src 201 0 [] [] fuel)
    as (n & Hn & Hrun & _); [lia | lia | lia |].
  exists (concat (List.map src (seq 0 n))), (seq 0 n).
  rewrite length_seq. by repeat split; [| lia | lia].
Qed.

Lemma fetchAllTasksFromList_terminates_witness :
  exists tasks asked,
    fetchAllTasksFromList (fun _ => [some_task]) 201 = Some (tasks, asked)
    /\ (1 <= length asked <= 201)%nat
    /\ asked = seq 0 (length asked)
    /\ tasks = concat (List.map (fun _ => [some_task]) asked).
Proof.
  apply (fetchAllTasksFromList_terminates (fun _ => [some_task]) 201). lia.
Defined.

(** ** A run that fails *)

Lemma last_key_ext (k : string) (rows rows' : list (list jsval)) :
  Forall2 (fun r r' => row_key r = row_key r') rows rows' ->
  last_key k rows = last_key k rows'.
Proof.
  induction 1 as [| r r' rows rows' Hkey _ IH]; simpl; [done |].
  by rewrite IH, Hkey.
Qed.

(** The overwrites of a batch leave the mapping, and row 1, as they
    were. *)
Lemma after_overwrites_mapping (s : list (list jsval))
    (records : list record) :
  (forall r, r ∈ records -> task_id r <> "") ->
  idToRow_of (after_overwrites s records) = idToRow_of s.
Proof.
  intros Hids. apply map_eq. intros k. rewrite !idToRow_of_lookup.
  f_equal. apply last_key_ext.
  destruct (batchUpdate_updates_of s records) as [Hlen _].
  apply Forall2_same_length_lookup_2.
  - rewrite !length_drop. unfold after_overwrites. by rewrite Hlen.
  - intros i old old0. rewrite !lookup_drop. intros Hold Hold0.
    destruct (overwritten_row s records Hids _ _ Hold)
      as (old0' & Hold0' & Hkey & _).
    congruence.
Qed.

Lemma after_overwrites_header (s : list (list jsval))
    (records : list record) :
  head (after_overwrites s records) = head s.
Proof.
  rewrite !head_lookup.
  destruct (batchUpdate_updates_of s records) as [_ Hrows].
  unfold after_overwrites. rewrite Hrows.
  assert (last_rec (fun r => bool_decide
                      (target (idToRow_of s) r = Some 1%nat))
            records = None) as ->.
  { apply last_rec_None. intros r _. apply bool_decide_eq_false.
    intros Ht. apply target_row in Ht as [Hle _]. lia. }
  by destruct (s !! 0%nat).
Qed.

(** Made a second time, the overwrites of a batch change nothing. *)
Lemma after_overwrites_again (s : list (list jsval)) (records : list record) :
  batchUpdate (updates_of (idToRow_of s) records) (after_overwrites s records)
  = after_overwrites s records.
Proof.
  destruct (batchUpdate_lookup (updates_of (idToRow_of s) records) s)
    as [Hlen Hrows].
  { intros u Hu. apply updates_of_in_range in Hu. lia. }
  destruct (batchUpdate_lookup (updates_of (idToRow_of s) records)
              (after_overwrites s records)) as [_ Hagain].
  { intros u Hu. apply updates_of_in_range in Hu.
    unfold after_overwrites. rewrite Hlen. lia. }
  apply list_eq. intros j. rewrite Hagain. unfold after_overwrites.
  rewrite Hrows. destruct (s !! j) as [old |]; [| done]. simpl. f_equal.
  destruct (last_write (S j) _) as [v |]; [| done].
  by apply overwrite_overwrite.
Qed.

(** The batch upserted on the store its overwrites have left gives the
    store it gives on the store as it was. *)
Lemma upsert_after_overwrites (s : list (list jsval))
    (records : list record) :
  (forall r, r ∈ records -> task_id r <> "") ->
  fst (upsertByTaskId (after_overwrites s records) records)
  = after_upsert s records.
Proof.
  intros Hids. rewrite upsertByTaskId_unfold. simpl.
  by rewrite after_overwrites_mapping, after_overwrites_again.
Qed.

Section RunFacts.
Context `{Host}.

Lemma sync_Return (field : string) (tasks : list jsval)
    (records : list record) (s : list (list jsval)) :
  normalize field tasks = Return records ->
  fst (sync field tasks s) = after_upsert (fst (ensureHeaderRow s)) records.
Proof.
  intros Hnorm. unfold sync. rewrite Hnorm.
  by rewrite upsertByTaskId_unfold.
Qed.

(** The store a run leaves, failed or not: the store it found, or that
    store with its header ensured, then with the overwrites made, then with
    the rows appended. *)
Lemma run_leaves (a : answers) (field : string) (tasks : list jsval)
    (records : list record) (s : list (list jsval)) :
  normalize field tasks = Return records ->
  let headed := fst (ensureHeaderRow s) in
  let left := fst (run a field tasks s) in
  left = s \/ left = headed \/ left = after_overwrites headed records
  \/ left = after_upsert headed records.
Proof.
  intros Hnorm. cbv zeta. unfold run. rewrite Hnorm.
  destruct (client a) as [[] |]; [| by left].
  case_bool_decide; [by left |].
  destruct (ensureHeaderRow s) as [headed wrote] eqn:Hguard. simpl fst.
  assert (Hon : forall f,
            written f wrote s headed = (headed, true)
            \/ snd (written f wrote s headed) = false
               /\ (fst (written f wrote s headed) = s
                   \/ fst (written f wrote s headed) = headed)).
  { intros f. unfold written. destruct wrote.
    - destruct f as [[|] |]; [right | right | left]; simpl; tauto.
    - left. destruct (ensureHeaderRow_cases s) as [[_ Hs] | [_ Hs]];
        rewrite Hs in Hguard; by injection Hguard as <-. }
  destruct (Hon (store a WriteHeader)) as [-> | [Hoff Hleft]].
  2:{ destruct (written _ wrote s headed) as [s' on]. simpl in *. subst on.
      simpl. tauto. }
  simpl negb. cbv iota. case_bool_decide; [tauto |].
  rewrite schedule_spec.
  set (updates := updates_of (idToRow_of headed) records).
  set (appends := appends_of (idToRow_of headed) records).
  change (batchUpdate updates headed)
    with (after_overwrites headed records).
  assert (Hover : forall f,
            written f (negb (length updates =? 0)%nat) headed
              (after_overwrites headed records)
            = (after_overwrites headed records, true)
            \/ snd (written f (negb (length updates =? 0)%nat) headed
                      (after_overwrites headed records)) = false
               /\ (fst (written f (negb (length updates =? 0)%nat) headed
                          (after_overwrites headed records)) = headed
                   \/ fst (written f (negb (length updates =? 0)%nat) headed
                             (after_overwrites headed records))
                      = after_overwrites headed records)).
  { intros f. unfold written.
    destruct (length updates =? 0)%nat eqn:Hnone; simpl.
    - left. apply Nat.eqb_eq, nil_length_inv in Hnone.
      unfold after_overwrites. fold updates. by rewrite Hnone.
    - destruct f as [[|] |]; [right | right | left]; simpl; tauto. }
  destruct (Hover (store a WriteRows)) as [-> | [Hoff Hleft]].
  2:{ destruct (written _ _ headed _) as [s' on]. simpl in *. subst on.
      simpl. tauto. }
  simpl negb. cbv iota.
  change (values_append appends (after_overwrites headed records))
    with (after_upsert headed records).
  unfold written. destruct (length appends =? 0)%nat eqn:Hnone; simpl.
  - tauto.
  - destruct (store a AppendRows) as [[|] |]; simpl; tauto.
Qed.

(** X19: whatever the collaborators of a run answer, the run leaves a
    store from which running the whole pipeline again on the same tasks,
    the collaborators answering, ends with the store a run without failure
    would have left: a failed write, refused or carried out unanswered, is
    made good by the next run.  The run without failure is [sync]; and a
    run in which [normalize] throws, or [getSheetsClient] after it, leaves
    the store as it found it. *)
Theorem run_recovers (a : answers) (field : string) (tasks : list jsval)
    (s : list (list jsval)) :
  fst (sync field tasks (fst (run a field tasks s)))
  = fst (sync field tasks s)
  /\ (answered a -> run a field tasks s = sync field tasks s)
  /\ (forall e, normalize field tasks = Throw e ->
        run a field tasks s = (s, Throw e))
  /\ (forall records e,
        normalize field tasks = Return records -> client a = Throw e ->
        run a field tasks s = (s, Throw e)).
Proof.
  split; [| split; [| split]].
  - destruct (normalize field tasks) as [records |] eqn:Hnorm.
    2:{ unfold run. by rewrite Hnorm. }
    assert (Hids : forall r, r ∈ records -> task_id r <> "").
    { intros r Hr. by destruct (normalize_Return _ _ _ Hnorm r Hr). }
    set (headed := fst (ensureHeaderRow s)).
    assert (Hheaded : ensureHeaderRow headed = (headed, false)).
    { destruct (ensureHeaderRow_cases headed) as [[_ ->] | [Hno _]];
        [done |].
      destruct Hno. apply ensureHeaderRow_leaves_accepted. }
    rewrite !(sync_Return field tasks records) by done. fold headed.
    destruct (run_leaves a field tasks records s Hnorm)
      as [-> | [-> | [-> | ->]]]; fold headed.
    + done.
    + by rewrite Hheaded.
    + assert (Hacc : header_accepted (after_overwrites headed records)).
      { unfold header_accepted. rewrite after_overwrites_header.
        apply ensureHeaderRow_leaves_accepted. }
      destruct (ensureHeaderRow_cases (after_overwrites headed records))
        as [[_ ->] | [Hno _]]; [| done].
      simpl fst. rewrite <- (upsert_after_overwrites headed records Hids).
      by rewrite upsertByTaskId_unfold.
    + pose proof (ensureHeaderRow_header_present s) as Hpresent.
      fold headed in Hpresent.
      assert (Hacc : header_accepted (after_upsert headed records)).
      { unfold header_accepted. rewrite after_upsert_header by done.
        apply ensureHeaderRow_leaves_accepted. }
      destruct (ensureHeaderRow_cases (after_upsert headed records))
        as [[_ ->] | [Hno _]]; [| done].
      simpl fst.
      pose proof (second_run headed records Hpresent Hids) as Hsecond.
      rewrite upsertByTaskId_unfold in Hsecond.
      by injection Hsecond as Hsecond _.
  - intros [Hclient Hstore]. unfold run, sync.
    destruct (normalize field tasks) as [records |]; [| done].
    rewrite Hclient, !Hstore.
    rewrite (bool_decide_eq_false_2 (is_Some None)) by by intros [? [=]].
    destruct (ensureHeaderRow s) as [headed wrote] eqn:Hguard. simpl fst.
    assert (written None wrote s headed = (headed, true)) as ->.
    { unfold written. destruct wrote; [done |].
      destruct (ensureHeaderRow_cases s) as [[_ Hs] | [_ Hs]];
        rewrite Hs in Hguard; by injection Hguard as <-. }
    simpl negb. cbv iota. unfold upsertByTaskId.
    destruct (schedule _ records) as [updates appends]. unfold written.
    by destruct (length updates =? 0)%nat, (length appends =? 0)%nat.
  - intros e Hnorm. unfold run. by rewrite Hnorm.
  - intros records e Hnorm Hclient. unfold run. by rewrite Hnorm, Hclient.
Qed.

End RunFacts.

(** The scenario of the specification on an empty store, the answer to the
    append lost: the run ends with an error and the row is in the store;
    the next run finds it and overwrites it, and the store is the one a run
    without failure leaves. *)
Example run_lost_append :
  let a := {| client := Return tt;
              store := fun call =>
                         match call with
                         | AppendRows => Some Lost
                         | _ => None
                         end |} in
  let left := [List.map VStr HEADERS; rowFromRecord scenario_record] in
  run (H := IntegerHost.host) a "Page URL" [scenario_task] []
  = (left, Throw CollaboratorError)
  /\ sync (H := IntegerHost.host) "Page URL" [scenario_task] left
     = (left, Return (1, 0)%nat)
  /\ sync (H := IntegerHost.host) "Page URL" [scenario_task] []
     = (left, Return (0, 1)%nat).
Proof. repeat split; vm_compute; reflexivity. Qed.

(** Credentials that do not parse in [getSheetsClient], as the list-scoped
    script has it, end the run after [normalize] has returned and before
    the store is touched. *)
Example run_bad_credentials :
  run (H := IntegerHost.host)
    {| client := Throw CollaboratorError; store := fun _ => None |}
    "Page URL" [scenario_task] []
  = ([], Throw CollaboratorError).
Proof. reflexivity. Qed.
